(** * ClearTrip-Flow: the panorama stitching pipeline of [PanoramaCreator]

    A shallow embedding of the stitching code of the panorama creator
    component ([cropPanorama], [stitchTwoImages], [stitchWithOpenCV]), of
    its list of uploaded images ([moveImage], [removeImage]) and of the tour
    tree of [ImageTree] and [PanoramaViewer] ([addChildToNode],
    [addHotspotToNode], [findNode], [findParent]).

    Conventions of the embedding.
    - A JavaScript [number] is an exact rational ([Q]); [Math.floor],
      [Math.ceil], [Math.round], [Math.abs], [Math.min] and [Math.max] are
      their exact counterparts.  Rounding error of binary64 arithmetic,
      [NaN] and the infinities are outside the model.
    - Integers that the code obtains through [Math.floor], [Math.ceil],
      [Math.round] or from [Mat.rows] / [Mat.cols] are in [Z].
    - Calls into the OpenCV runtime ([window.cv]) are calls to the fields of
      a record [CvLib].  The [throw] statements of the component itself are
      modelled, and so are three ways in which the runtime throws:
      [cv.perspectiveTransform] on the empty matrix that [cv.findHomography]
      answers when it finds no transform, [new cv.Mat] with a negative
      size, and the use of a matrix whose [delete()] has run.  Other
      exceptions raised inside the library are outside the model. *)

From Stdlib Require Import ZArith QArith Qround Qabs Qminmax Qpower.
From Stdlib Require Import List Bool Lia Lqa Permutation.
From Stdlib Require String.
Import ListNotations.

Open Scope Z_scope.

(** ** JavaScript numbers *)

Module JS.

Definition number := Q.

(** [x < y] on numbers, as a boolean. *)
Definition ltb (x y : number) : bool := negb (Qle_bool y x).

(** [x > y] on numbers. *)
Definition gtb (x y : number) : bool := ltb y x.

Definition Math_floor (x : number) : Z := Qfloor x.
Definition Math_ceil (x : number) : Z := Qceiling x.

(** [Math.round] rounds half-way cases towards plus infinity. *)
Definition Math_round (x : number) : Z := Qfloor (x + (1 # 2)).

Definition Math_abs (x : number) : number := Qabs x.

(** [Math.min(...xs)] and [Math.max(...xs)] on a list with a first
    element. *)
Definition Math_min (x : number) (xs : list number) : number :=
  fold_left Qmin xs x.
Definition Math_max (x : number) (xs : list number) : number :=
  fold_left Qmax xs x.

(** A store into a [Uint8Array] element keeps the value modulo 256. *)
Definition to_uint8 (z : Z) : Z := z mod 256.

Arguments ltb (x y)%_Q.
Arguments gtb (x y)%_Q.
Arguments Math_floor x%_Q.
Arguments Math_ceil x%_Q.
Arguments Math_round x%_Q.
Arguments Math_abs x%_Q.

End JS.

Import JS.

(** ** Images *)

(** A pixel is the list of its channel bytes (3 for [CV_8UC3], 4 for RGBA). *)
Definition Pixel := list Z.

(** [cv.Mat]: the dimensions and the row-major pixel data. *)
Record Mat : Type := mkMat {
  rows : Z;
  cols : Z;
  data : list (list Pixel)
}.

(** What a variable that held a [cv.Mat] refers to: the matrix, or an object
    whose [delete()] has run. *)
Inductive MatHandle : Type :=
| live (m : Mat)
| deleted.

(** [m.ucharPtr(y, x)]. *)
Definition ucharPtr (m : Mat) (y x : Z) : Pixel :=
  nth (Z.to_nat x) (nth (Z.to_nat y) (data m) []) [].

(** [p[c]] for a channel index [c]. *)
Definition chan (p : Pixel) (c : nat) : Z := nth c p 0.

(** [new cv.Rect(x, y, width, height)]. *)
Record Rect : Type := mkRect {
  rect_x : Z;
  rect_y : Z;
  rect_width : Z;
  rect_height : Z
}.

(** [m.roi(rect).clone()]: a fresh matrix holding the pixels of the
    rectangle. *)
Definition roi_clone (m : Mat) (r : Rect) : Mat :=
  {| rows := rect_height r;
     cols := rect_width r;
     data :=
       map (fun row => firstn (Z.to_nat (rect_width r))
                              (skipn (Z.to_nat (rect_x r)) row))
           (firstn (Z.to_nat (rect_height r))
                   (skipn (Z.to_nat (rect_y r)) (data m))) |}.

(** ** Corners *)

Definition Point := (number * number)%type.

Definition px (p : Point) : number := fst p.
Definition py (p : Point) : number := snd p.

(** The four transformed corners of the moving image, in the order of
    [pts1]: index 0 is the image of [(0, 0)] (top-left), index 1 of
    [(0, h_src)] (bottom-left), index 2 of [(w_src, h_src)] (bottom-right)
    and index 3 of [(w_src, 0)] (top-right).  [stitchTwoImages] always
    builds exactly four. *)
Record Corners : Type := mkCorners {
  corner0 : Point;
  corner1 : Point;
  corner2 : Point;
  corner3 : Point
}.

Definition corner_list (c : Corners) : list Point :=
  [corner0 c; corner1 c; corner2 c; corner3 c].

(** [Math.min(...corners.map((c) => c[0]))] and the same for [c[1]]. *)
Definition corners_min_x (c : Corners) : number :=
  Math_min (px (corner0 c)) (map px (tl (corner_list c))).
Definition corners_min_y (c : Corners) : number :=
  Math_min (py (corner0 c)) (map py (tl (corner_list c))).

(** ** [cropPanorama] *)

Record CropWindow : Type := mkCropWindow {
  crop_x_start : Z;
  crop_x_end : Z;
  crop_y_start : Z;
  crop_y_end : Z
}.

(** The floored minimum x of the corners, the variable [min_x] of
    [cropPanorama]. *)
Definition crop_min_x (corners : Corners) : Z :=
  Math_floor (corners_min_x corners).

Definition crop_min_y (corners : Corners) : Z :=
  Math_floor (corners_min_y corners).

(** The [if (corners[0][0] < 0) ... else ...] statement: the horizontal
    window chosen by the side of the extension, starting from
    [(0, pano.cols)]. *)
Definition side_x_window (pano_cols : Z) (corners : Corners) : Z * Z :=
  if ltb (px (corner0 corners)) 0 then
    let n := Math_abs (px (corner1 corners) - px (corner0 corners)) in
    (Z.max 0 (Math_floor n), pano_cols)
  else
    let end_x := Qmin (px (corner2 corners)) (px (corner3 corners)) in
    (0, Z.min pano_cols (Math_ceil end_x)).

(** The crop window computed by [cropPanorama], after the [min_x]
    adjustment and the four clamps. *)
Definition cropWindow (pano_cols pano_rows h_dst : Z) (corners : Corners)
  : CropWindow :=
  let min_x := crop_min_x corners in
  let min_y := crop_min_y corners in
  let t_y := - min_y in
  let crop_y_start := t_y in
  let crop_y_end := Z.min (t_y + h_dst) pano_rows in
  let '(crop_x_start, crop_x_end) := side_x_window pano_cols corners in
  let crop_x_start :=
    if min_x <? 0
    then Z.max crop_x_start (Math_floor (inject_Z (- min_x)))
    else crop_x_start in
  {| crop_x_start := Z.max 0 crop_x_start;
     crop_x_end := Z.min pano_cols crop_x_end;
     crop_y_start := Z.max 0 crop_y_start;
     crop_y_end := Z.min pano_rows crop_y_end |}.

Definition window_width (w : CropWindow) : Z := crop_x_end w - crop_x_start w.
Definition window_height (w : CropWindow) : Z := crop_y_end w - crop_y_start w.

Definition cropPanorama (pano : Mat) (h_dst : Z) (corners : Corners) : Mat :=
  let w := cropWindow (cols pano) (rows pano) h_dst corners in
  let width := window_width w in
  let height := window_height w in
  if (width <=? 0) || (height <=? 0) then pano
  else roi_clone pano (mkRect (crop_x_start w) (crop_y_start w) width height).

(** [cropPanorama] answers the very object [pano], not a clone, when the
    window has no width or no height. *)
Definition crop_returns_input (pano : Mat) (h_dst : Z) (corners : Corners)
  : bool :=
  let w := cropWindow (cols pano) (rows pano) h_dst corners in
  (window_width w <=? 0) || (window_height w <=? 0).

(** ** Canvas geometry of [stitchTwoImages] *)

(** The string [side], either ["left"] or ["right"]. *)
Inductive Side : Type := side_left | side_right.

Record Canvas : Type := mkCanvas {
  side : Side;
  width_pano : Z;
  height_pano : Z;
  t_x : number;
  t_y : number;
  dst_x : Z;
  dst_y : Z
}.

(** [corners_dst]: the rectangle of the fixed image, in the order of
    [corners_src]. *)
Definition corners_dst (w_dst h_dst : Z) : list Point :=
  [(0, 0); (0, inject_Z h_dst);
   (inject_Z w_dst, inject_Z h_dst); (inject_Z w_dst, 0)]%Q.

(** [all_corners = [...corners_src, ...corners_dst]]. *)
Definition all_corners (w_dst h_dst : Z) (corners_src : Corners) : list Point :=
  corner_list corners_src ++ corners_dst w_dst h_dst.

(** The statements from [const min_x = ...] to [const height_pano = ...],
    and [dst_x], [dst_y]. *)
Definition canvasGeometry (w_dst h_dst : Z) (corners_src : Corners) : Canvas :=
  let all := all_corners w_dst h_dst corners_src in
  let min_x := Math_min (px (corner0 corners_src)) (map px (tl all)) in
  let min_y := Math_min (py (corner0 corners_src)) (map py (tl all)) in
  let max_y := Math_max (py (corner0 corners_src)) (map py (tl all)) in
  let t_x := (- min_x)%Q in
  let t_y := (- min_y)%Q in
  let side := if ltb (px (corner0 corners_src)) 0 then side_left else side_right in
  let width_pano :=
    match side with
    | side_left => Math_ceil (inject_Z w_dst + t_x)
    | side_right => Math_ceil (px (corner3 corners_src))
    end in
  let height_pano := Math_ceil (max_y - min_y) in
  let dst_x := match side with side_left => Math_round t_x | side_right => 0 end in
  let dst_y := Math_round t_y in
  {| side := side; width_pano := width_pano; height_pano := height_pano;
     t_x := t_x; t_y := t_y; dst_x := dst_x; dst_y := dst_y |}.

(** ** Feature matching: Lowe's ratio test *)

(** [cv.DMatch]. *)
Record DMatch : Type := mkDMatch {
  queryIdx : Z;
  trainIdx : Z;
  distance : number
}.

(** The body of the loop over [matches]: what it pushes on [good_matches]
    for one [match_pair]. *)
Definition ratio_test (match_pair : list DMatch) : list DMatch :=
  match match_pair with
  | m :: n :: _ =>
      if ltb (distance m) ((75 # 100) * distance n) then [m] else []
  | _ => []
  end.

(** [good_matches] after the loop. *)
Definition good_matches_of (matches : list (list DMatch)) : list DMatch :=
  flat_map ratio_test matches.

(** ** Blending of one pixel *)

(** The three colour channels written by the [for (let c = 0; c < 3; c++)]
    loops. *)
Definition channels : list nat := [0%nat; 1%nat; 2%nat].

(** The body of the second loop over the canvas; [pano_pix] starts as the
    black pixel of [new cv.Mat(..., new cv.Scalar(0, 0, 0))]. *)
Definition blendPixel (dst_pix src_pix : Pixel)
    (has_dst has_src in_overlap : bool) (d_dst d_src : number) : Pixel :=
  if in_overlap then
    let total := (d_dst + d_src)%Q in
    if gtb total (1 # 100) then
      let w_dst := (d_dst / total)%Q in
      let w_src := (d_src / total)%Q in
      map (fun c =>
             to_uint8 (Math_round (inject_Z (chan dst_pix c) * w_dst
                                   + inject_Z (chan src_pix c) * w_src)))
          channels
    else
      map (fun c =>
             to_uint8 (Math_round
                         (inject_Z (chan dst_pix c + chan src_pix c) / 2)))
          channels
  else if has_dst then
    map (fun c => to_uint8 (chan dst_pix c)) channels
  else if has_src && (10 <? chan src_pix 3) then
    map (fun c => to_uint8 (chan src_pix c)) channels
  else [0; 0; 0].

(** ** Homographies *)

(** A 3x3 [CV_64F] matrix, row by row. *)
Record Mat3 : Type := mkMat3 {
  h00 : number; h01 : number; h02 : number;
  h10 : number; h11 : number; h12 : number;
  h20 : number; h21 : number; h22 : number
}.

Definition det3 (m : Mat3) : number :=
  (h00 m * (h11 m * h22 m - h12 m * h21 m)
   - h01 m * (h10 m * h22 m - h12 m * h20 m)
   + h02 m * (h10 m * h21 m - h11 m * h20 m))%Q.

(** [Ht]: [cv.Mat.eye(3, 3)] with [t_x] and [t_y] in the last column. *)
Definition translation (tx ty : number) : Mat3 :=
  (mkMat3 1 0 tx 0 1 ty 0 0 1)%Q.

(** [cv.gemm(A, B, 1, new cv.Mat(), 0, C)]: the product [A * B]. *)
Definition gemm (a b : Mat3) : Mat3 :=
  (mkMat3
     (h00 a * h00 b + h01 a * h10 b + h02 a * h20 b)
     (h00 a * h01 b + h01 a * h11 b + h02 a * h21 b)
     (h00 a * h02 b + h01 a * h12 b + h02 a * h22 b)
     (h10 a * h00 b + h11 a * h10 b + h12 a * h20 b)
     (h10 a * h01 b + h11 a * h11 b + h12 a * h21 b)
     (h10 a * h02 b + h11 a * h12 b + h12 a * h22 b)
     (h20 a * h00 b + h21 a * h10 b + h22 a * h20 b)
     (h20 a * h01 b + h21 a * h11 b + h22 a * h21 b)
     (h20 a * h02 b + h21 a * h12 b + h22 a * h22 b))%Q.

(** ** The OpenCV runtime *)

(** [cv.KeyPoint], of which the code reads [pt]. *)
Record KeyPoint : Type := mkKeyPoint { pt : Point }.

(** A [CV_32F] matrix read with [floatAt]. *)
Definition FMat := list (list number).

Definition floatAt (f : FMat) (y x : Z) : number :=
  nth (Z.to_nat x) (nth (Z.to_nat y) f []) 0%Q.

(** The calls [stitchTwoImages] makes into [window.cv], with the constants
    it passes fixed: [new cv.ORB(2000)], [cv.BFMatcher(cv.NORM_HAMMING)]
    with [k = 2], [cv.RANSAC] with threshold [5.0], a 3x3 rectangular
    structuring element, [cv.DIST_L2] with mask size 3 and an 11x11
    Gaussian kernel.  [findHomography] answers [None] for the empty matrix
    that the library returns when it finds no transform, together with the
    mask. *)
Record CvLib : Type := mkCvLib {
  cvtColor_RGBA2GRAY : Mat -> Mat;
  ORB_detectAndCompute : Mat -> list KeyPoint * Mat;
  BFMatcher_knnMatch : Mat -> Mat -> list (list DMatch);
  findHomography : list Point -> list Point -> option Mat3 * list Z;
  perspectiveTransform : list Point -> Mat3 -> list Point;
  warpPerspective : Mat -> Mat3 -> Z -> Z -> Mat;
  bitwise_and : Mat -> Mat -> Mat;
  erode : Mat -> Mat;
  distanceTransform : Mat -> FMat;
  GaussianBlur : FMat -> FMat
}.

(** ** Canvas construction *)

(** [0, 1, ..., n - 1], the values of a loop counter. *)
Definition range (n : Z) : list Z := map Z.of_nat (seq 0 (Z.to_nat n)).

(** A matrix of the given size filled pixel by pixel. *)
Definition build_mat (h w : Z) (f : Z -> Z -> Pixel) : Mat :=
  {| rows := h; cols := w;
     data := map (fun y => map (fun x => f y x) (range w)) (range h) |}.

(** [dst_resized]: the fixed image copied at [(dst_x, dst_y)] into a black
    canvas.  The loop of the code runs over the pixels [(y, x)] of the
    fixed image and writes the target [(y + dst_y, x + dst_x)] when it lies
    on the canvas; here each canvas pixel looks up its only source. *)
Definition place_fixed (dst_img : Mat) (cv_ : Canvas) : Mat :=
  build_mat (height_pano cv_) (width_pano cv_)
    (fun target_y target_x =>
       let y := target_y - dst_y cv_ in
       let x := target_x - dst_x cv_ in
       if (0 <=? y) && (y <? rows dst_img) && (0 <=? x) && (x <? cols dst_img)
       then map (fun c => to_uint8 (chan (ucharPtr dst_img y x) c)) channels
       else [0; 0; 0]).

(** [mask_dst] and [mask_src] after the first loop over the canvas. *)
Definition build_mask_dst (dst_resized : Mat) (h w : Z) : Mat :=
  build_mat h w (fun y x =>
    let dst_pix := ucharPtr dst_resized y x in
    if 10 <? chan dst_pix 0 + chan dst_pix 1 + chan dst_pix 2
    then [255] else [0]).

Definition build_mask_src (src_warped : Mat) (h w : Z) : Mat :=
  build_mat h w (fun y x =>
    let src_pix := ucharPtr src_warped y x in
    if 10 <? chan src_pix 3 then [255] else [0]).

(** [m.ucharPtr(y, x)[0] > 0]. *)
Definition mask_set (m : Mat) (y x : Z) : bool := 0 <? chan (ucharPtr m y x) 0.

(** ** Errors and the status log *)

(** The ways a stitching run is abandoned: the two [throw] statements of
    [stitchTwoImages], the rejection of [loadImage], an exception thrown
    inside an OpenCV call, and the error of the runtime when it is handed a
    deleted matrix. *)
Inductive StitchError : Type :=
| NotEnoughFeatures
| NotEnoughGoodMatches
| ImageLoadFailed
| CvException
| DeletedObject.

Inductive Result (A : Type) : Type :=
| Ok (a : A)
| Err (e : StitchError).

Arguments Ok {A} a.
Arguments Err {A} e.

(** The lines handed to [addLog], without their time stamp. *)
Inductive LogEntry : Type :=
| LogUploaded (n : nat)
| LogProcessingPair (imageNum : Z)
| LogDetecting
| LogKeypoints (n_dst n_src : nat)
| LogMatching
| LogGoodMatches (n : nat)
| LogHomography
| LogInliers (inlierCount : nat) (n : nat)
| LogCanvas (w h : Z) (s : Side)
| LogBlending
| LogCropping
| LogStitched (imageNum : Z)
| LogStarted
| LogLoaded (n : nat)
| LogImageSize (idx : Z) (w h : Z)
| LogComplete (w h : Z)
| LogError (e : StitchError).

(** The values given to [setProgress]. *)
Inductive Progress : Type :=
| ProgressNone
| ProgressStarting
| ProgressLoading
| ProgressConverting
| ProgressStitching
| ProgressStitchingImage (i : Z) (n : nat)
| ProgressGenerating
| ProgressError.

(** The messages shown with [alert]. *)
Inductive Alert : Type :=
| AlertAtLeastTwoImages
| AlertOpenCVLoading
| AlertError (e : StitchError).

(** ** The pairwise pipeline *)

Section Pipeline.

Variable cv : CvLib.

(** The masks after [cv.erode] and the distance fields after
    [cv.GaussianBlur], for a canvas of [h] rows and [w] columns. *)
Definition eroded_mask_dst (dst_resized : Mat) (h w : Z) : Mat :=
  erode cv (build_mask_dst dst_resized h w).

Definition eroded_mask_src (src_warped : Mat) (h w : Z) : Mat :=
  erode cv (build_mask_src src_warped h w).

Definition eroded_overlap (dst_resized src_warped : Mat) (h w : Z) : Mat :=
  erode cv (bitwise_and cv (build_mask_dst dst_resized h w)
                           (build_mask_src src_warped h w)).

Definition blurred_dist_dst (dst_resized : Mat) (h w : Z) : FMat :=
  GaussianBlur cv (distanceTransform cv (eroded_mask_dst dst_resized h w)).

Definition blurred_dist_src (src_warped : Mat) (h w : Z) : FMat :=
  GaussianBlur cv (distanceTransform cv (eroded_mask_src src_warped h w)).

(** The blending part of [stitchTwoImages], from the allocation of
    [pano] to the end of the second loop over the canvas. *)
Definition blendCanvas (dst_resized src_warped : Mat) (h w : Z) : Mat :=
  let mask_dst := eroded_mask_dst dst_resized h w in
  let mask_src := eroded_mask_src src_warped h w in
  let overlap := eroded_overlap dst_resized src_warped h w in
  let dist_dst := blurred_dist_dst dst_resized h w in
  let dist_src := blurred_dist_src src_warped h w in
  build_mat h w (fun y x =>
    blendPixel (ucharPtr dst_resized y x) (ucharPtr src_warped y x)
               (mask_set mask_dst y x) (mask_set mask_src y x)
               (mask_set overlap y x)
               (floatAt dist_dst y x) (floatAt dist_src y x)).

(** [kp.get(idx).pt]. *)
Definition kp_pt (kp : list KeyPoint) (idx : Z) : Point :=
  pt (nth (Z.to_nat idx) kp (mkKeyPoint (0, 0)%Q)).

(** The number of rows of [mask] with a positive entry. *)
Definition count_inliers (mask : list Z) : nat :=
  length (filter (fun v => 0 <? v) mask).

(** The corners read back from [pts1_transformed]. *)
Definition corners_of (pts : list Point) : Corners :=
  mkCorners (nth 0 pts (0, 0)%Q) (nth 1 pts (0, 0)%Q)
            (nth 2 pts (0, 0)%Q) (nth 3 pts (0, 0)%Q).

(** [pts1], the corners of the moving image. *)
Definition pts1 (w_src h_src : Z) : list Point :=
  [(0, 0); (0, inject_Z h_src);
   (inject_Z w_src, inject_Z h_src); (inject_Z w_src, 0)]%Q.

(** The canvas of a pair for a matrix [H]: the corners of the moving
    image sent through [cv.perspectiveTransform] and the geometry derived
    from them. *)
Definition corners_src_of (src_img : Mat) (H : Mat3) : Corners :=
  corners_of (perspectiveTransform cv (pts1 (cols src_img) (rows src_img)) H).

Definition canvas_of (dst_img src_img : Mat) (H : Mat3) : Canvas :=
  canvasGeometry (cols dst_img) (rows dst_img) (corners_src_of src_img H).

(** [pano] before the crop: the moving image warped with [H_final] and
    the fixed image placed on the canvas, blended. *)
Definition blended_canvas_of (dst_img src_img : Mat) (H : Mat3) : Mat :=
  let cnv := canvas_of dst_img src_img H in
  let Ht := translation (t_x cnv) (t_y cnv) in
  let H_final := gemm Ht H in
  let src_warped :=
    warpPerspective cv src_img H_final (width_pano cnv) (height_pano cnv) in
  let dst_resized := place_fixed dst_img cnv in
  blendCanvas dst_resized src_warped (height_pano cnv) (width_pano cnv).

(** [stitchTwoImages] once [cv.perspectiveTransform] has answered: the
    canvas, the warp, the allocation of the canvas buffers, which throws
    for a negative size, the blend and the crop.  When the crop answers
    [pano] itself, the [pano.delete()] at the end deletes the object that
    is returned. *)
Definition stitch_from_homography (dst_img src_img : Mat) (imageNum : Z)
    (H : Mat3) : list LogEntry * Result MatHandle :=
  let h_dst := rows dst_img in
  let corners_src := corners_src_of src_img H in
  let cnv := canvas_of dst_img src_img H in
  let log_canvas :=
    [LogCanvas (width_pano cnv) (height_pano cnv) (side cnv)] in
  if (height_pano cnv <? 0) || (width_pano cnv <? 0) then
    (log_canvas, Err CvException)
  else
    let pano := blended_canvas_of dst_img src_img H in
    let log := log_canvas ++ [LogBlending; LogCropping; LogStitched imageNum] in
    if crop_returns_input pano h_dst corners_src then (log, Ok deleted)
    else (log, Ok (live (cropPanorama pano h_dst corners_src))).

(** The key points and descriptors of an image: [cv.cvtColor] followed by
    [orb.detectAndCompute]. *)
Definition keypoints_of (img : Mat) : list KeyPoint :=
  fst (ORB_detectAndCompute cv (cvtColor_RGBA2GRAY cv img)).

Definition descriptors_of (img : Mat) : Mat :=
  snd (ORB_detectAndCompute cv (cvtColor_RGBA2GRAY cv img)).

(** [matches] after [bf.knnMatch(desc_src, desc_dst, matches, 2)]. *)
Definition matches_of (dst_img src_img : Mat) : list (list DMatch) :=
  BFMatcher_knnMatch cv (descriptors_of src_img) (descriptors_of dst_img).

(** The answer of [cv.findHomography] on the points of the good
    matches. *)
Definition homography_of (dst_img src_img : Mat) : option Mat3 * list Z :=
  let good_matches := good_matches_of (matches_of dst_img src_img) in
  let src_pts :=
    map (fun m => kp_pt (keypoints_of src_img) (queryIdx m)) good_matches in
  let dst_pts :=
    map (fun m => kp_pt (keypoints_of dst_img) (trainIdx m)) good_matches in
  findHomography cv src_pts dst_pts.

Definition stitchTwoImages (dst_img src_img : Mat) (imageNum : Z)
  : list LogEntry * Result MatHandle :=
  let kp_dst := keypoints_of dst_img in
  let kp_src := keypoints_of src_img in
  let log1 := [LogProcessingPair imageNum; LogDetecting;
               LogKeypoints (length kp_dst) (length kp_src)] in
  if (length kp_dst <? 4)%nat || (length kp_src <? 4)%nat then
    (log1, Err NotEnoughFeatures)
  else
    let good_matches := good_matches_of (matches_of dst_img src_img) in
    let log2 := log1 ++ [LogMatching; LogGoodMatches (length good_matches)] in
    if (length good_matches <? 4)%nat then
      (log2, Err NotEnoughGoodMatches)
    else
      let mask := snd (homography_of dst_img src_img) in
      let log3 :=
        log2 ++ [LogHomography;
                 LogInliers (count_inliers mask) (length good_matches)] in
      match fst (homography_of dst_img src_img) with
      | None => (log3, Err CvException)
      | Some H =>
          let stitched := stitch_from_homography dst_img src_img imageNum H in
          (log3 ++ fst stitched, snd stitched)
      end.

End Pipeline.

(** ** The driver [stitchWithOpenCV] *)

(** [UploadedImage], without its [File]. *)
Record UploadedImage : Type := mkUploadedImage {
  id : Z;
  url : Z;
  name : list Z
}.

(** The state of the component that the driver reads and writes, and the
    alerts shown so far.  [panorama] holds the picture behind the object
    URL. *)
Record CreatorState : Type := mkCreatorState {
  images : list UploadedImage;
  panorama : option Mat;
  processing : bool;
  progress : Progress;
  opencvReady : bool;
  statusLog : list LogEntry;
  showNameModal : bool;
  alerts : list Alert
}.

Definition alert (st : CreatorState) (a : Alert) : CreatorState :=
  {| images := images st; panorama := panorama st;
     processing := processing st; progress := progress st;
     opencvReady := opencvReady st; statusLog := statusLog st;
     showNameModal := showNameModal st; alerts := alerts st ++ [a] |}.

(** The state after [setProcessing(true)], [setPanorama(null)],
    [setStatusLog([])], the given progress and the given log lines. *)
Definition running (st : CreatorState) (p : Progress) (log : list LogEntry)
  : CreatorState :=
  {| images := images st; panorama := None;
     processing := true; progress := p;
     opencvReady := opencvReady st; statusLog := log;
     showNameModal := showNameModal st; alerts := alerts st |}.

(** The [catch] block. *)
Definition failed (st : CreatorState) (log : list LogEntry) (e : StitchError)
  : CreatorState :=
  {| images := images st; panorama := None;
     processing := false; progress := ProgressError;
     opencvReady := opencvReady st; statusLog := log ++ [LogError e];
     showNameModal := showNameModal st;
     alerts := alerts st ++ [AlertError e] |}.

(** The state once the blob of the final canvas has been turned into an
    object URL. *)
Definition completed (st : CreatorState) (log : list LogEntry) (pano : Mat)
  : CreatorState :=
  {| images := images st; panorama := Some pano;
     processing := false; progress := ProgressGenerating;
     opencvReady := opencvReady st;
     statusLog := log ++ [LogComplete (cols pano) (rows pano)];
     showNameModal := true; alerts := alerts st |}.

Section Driver.

Variable cv : CvLib.

(** [loadImage] followed by the drawing on a canvas and [cv.imread];
    [None] when the promise of [loadImage] is rejected. *)
Variable load_mat : UploadedImage -> option Mat.

(** [Promise.all(images.map(...))] and the conversion of each image. *)
Fixpoint load_all (imgs : list UploadedImage) : option (list Mat) :=
  match imgs with
  | [] => Some []
  | img :: rest =>
      match load_mat img, load_all rest with
      | Some m, Some ms => Some (m :: ms)
      | _, _ => None
      end
  end.

(** The log lines of the conversion, [idx] counting from 0. *)
Fixpoint log_sizes (idx : Z) (mats : list Mat) : list LogEntry :=
  match mats with
  | [] => []
  | m :: rest => LogImageSize (idx + 1) (cols m) (rows m)
                 :: log_sizes (idx + 1) rest
  end.

(** The loop [for (let i = 1; i < mats.length; i++)]; [rest] holds
    [mats[i]], [mats[i + 1]], ...  A call of [stitchTwoImages] on a deleted
    panorama logs its first line and fails in [cv.cvtColor]. *)
Fixpoint stitch_loop (panoramaResult : MatHandle) (rest : list Mat) (i : Z)
  : list LogEntry * Result MatHandle :=
  match rest with
  | [] => ([], Ok panoramaResult)
  | m :: rest' =>
      match panoramaResult with
      | deleted => ([LogProcessingPair i], Err DeletedObject)
      | live dst_img =>
          match stitchTwoImages cv dst_img m i with
          | (log, Err e) => (log, Err e)
          | (log, Ok p) =>
              let '(log', r) := stitch_loop p rest' (i + 1) in
              (log ++ log', r)
          end
      end
  end.

(** The loop started on the clone of [mats[0]], followed by
    [cv.imshow(canvas, panoramaResult)], which fails on a deleted
    panorama. *)
Definition stitch_all (first : Mat) (rest : list Mat)
  : list LogEntry * Result Mat :=
  match stitch_loop (live first) rest 1 with
  | (log, Ok (live pano)) => (log, Ok pano)
  | (log, Ok deleted) => (log, Err DeletedObject)
  | (log, Err e) => (log, Err e)
  end.

(** The body of [stitchWithOpenCV].  The branch for an empty [mats] is
    never taken: [mats] has as many elements as [images], at least two. *)
Definition stitchWithOpenCV (st : CreatorState) : CreatorState :=
  if (length (images st) <? 2)%nat then alert st AlertAtLeastTwoImages
  else if negb (opencvReady st) then alert st AlertOpenCVLoading
  else
    let log0 := [LogStarted] in
    match load_all (images st) with
    | None => failed (running st ProgressLoading log0) log0 ImageLoadFailed
    | Some mats =>
        let log1 := log0 ++ LogLoaded (length mats) :: log_sizes 0 mats in
        match mats with
        | [] => running st ProgressStitching log1
        | first :: rest =>
            match stitch_all first rest with
            | (log2, Ok pano) =>
                completed (running st ProgressGenerating (log1 ++ log2))
                          (log1 ++ log2) pano
            | (log2, Err e) =>
                failed (running st ProgressStitching (log1 ++ log2))
                       (log1 ++ log2) e
            end
        end
    end.

End Driver.

(** ** The wording of the specification, for comparison *)

Module Spec.

(** The overlap width the specification names for a left extension:
    [|cornersSrc[top-right].x - cornersSrc[top-left].x|], the top-right
    corner being index 3 and the top-left corner index 0. *)
Definition left_overlap_width (c : Corners) : number :=
  Math_abs (px (corner3 c) - px (corner0 c)).

(** The blend of a pixel of the overlap in the words of the
    specification: the equal average when [dFixed + dMoving < 0.01], the
    weighted sum otherwise. *)
Definition blend_overlap (dst_pix src_pix : Pixel) (d_dst d_src : number)
  : Pixel :=
  let total := (d_dst + d_src)%Q in
  if ltb total (1 # 100) then
    map (fun c =>
           Math_round (inject_Z (chan dst_pix c + chan src_pix c) / 2))
        channels
  else
    map (fun c =>
           Math_round (inject_Z (chan dst_pix c) * (d_dst / total)
                       + inject_Z (chan src_pix c) * (d_src / total)))
        channels.

End Spec.

(** [m] is a least element of [l], up to equality of rationals. *)
Definition is_min (m : number) (l : list number) : Prop :=
  (exists x, In x l /\ x == m)%Q /\ (forall x, In x l -> m <= x)%Q.

(** [m] is a greatest element of [l]. *)
Definition is_max (m : number) (l : list number) : Prop :=
  (exists x, In x l /\ x == m)%Q /\ (forall x, In x l -> x <= m)%Q.

(** A finite value of a [CV_32F] matrix, which is what [floatAt] reads from
    the blurred distance maps: a significand of 24 bits times a power of
    two. *)
Definition float32 (q : number) : Prop :=
  exists m e : Z,
    Z.abs m < 2 ^ 24 /\ -149 <= e <= 104
    /\ (q == inject_Z m * (2 # 1) ^ e)%Q.

(** The binary64 value that the literal [0.01] denotes,
    5764607523034235 / 2^59. *)
Definition binary64_0_01 : number := 5764607523034235 # 576460752303423488.

(** A pixel whose channels are bytes. *)
Definition byte_pixel (p : Pixel) : Prop :=
  forall c, 0 <= chan p c <= 255.

(** ** Concrete inputs *)

Module Examples.

(** A moving image of 50x100 pixels shifted 10 pixels to the left of a
    fixed image of 100x100 pixels. *)
Definition corners_shift_left : Corners :=
  (mkCorners (-10 # 1, 0) (-10 # 1, 100 # 1) (40 # 1, 100 # 1) (40 # 1, 0))%Q.

(** A moving image of 3x1 pixels shifted 2 pixels to the left of a fixed
    image of 4x1 pixels, and the 6x1 canvas of the pair with six distinct
    grey levels. *)
Definition corners_small_left : Corners :=
  (mkCorners (-2 # 1, 0) (-2 # 1, 1) (1, 1) (1, 0))%Q.

Definition pano_small : Mat :=
  build_mat 1 6 (fun _ x => [x + 1; x + 1; x + 1]).

(** A 4x2 picture with a uniform grey level. *)
Definition grey (v : Z) : Mat :=
  build_mat 2 4 (fun _ _ => [v; v; v; 255]).

Definition four_keypoints : list KeyPoint :=
  [mkKeyPoint (0, 0); mkKeyPoint (3 # 1, 0);
   mkKeyPoint (0, 1); mkKeyPoint (3 # 1, 1)]%Q.

(** Four matches that pass the ratio test. *)
Definition four_matches : list (list DMatch) :=
  map (fun i => [mkDMatch i i (10 # 1); mkDMatch i ((i + 1) mod 4) (100 # 1)])
      (range 4).

(** The map [(x, y) |-> (x + 5, 0)]: a singular matrix. *)
Definition H_collapse : Mat3 := (mkMat3 1 0 (5 # 1) 0 0 0 0 0 1)%Q.

(** The mirror [(x, y) |-> (- x, y)]. *)
Definition H_mirror : Mat3 := (mkMat3 (-1 # 1) 0 0 0 1 0 0 0 1)%Q.

(** The projective map of a matrix whose last row is [0 0 1]. *)
Definition apply_affine (H : Mat3) (p : Point) : Point :=
  (h00 H * px p + h01 H * py p + h02 H,
   h10 H * px p + h11 H * py p + h12 H)%Q.

(** Four ambiguous matches: the best distance is 80, the second 100. *)
Definition ambiguous_matches : list (list DMatch) :=
  map (fun i => [mkDMatch i i (80 # 1); mkDMatch i ((i + 1) mod 4) (100 # 1)])
      (range 4).

(** A runtime that finds four key points in every image, answers
    [matches] to [knnMatch] and [homography] with four inliers to
    [findHomography]; the warp leaves the canvas transparent,
    [bitwise_and] is the conjunction of the two masks, erosion keeps the
    masks and every distance is 1. *)
Definition cv_answering (matches : list (list DMatch))
    (homography : option Mat3 * list Z) : CvLib :=
  {| cvtColor_RGBA2GRAY := fun m => m;
     ORB_detectAndCompute := fun m => (four_keypoints, m);
     BFMatcher_knnMatch := fun _ _ => matches;
     findHomography := fun _ _ => homography;
     perspectiveTransform := fun pts M => map (apply_affine M) pts;
     warpPerspective := fun _ _ w h => build_mat h w (fun _ _ => [0; 0; 0; 0]);
     bitwise_and :=
       fun a b =>
         build_mat (rows a) (cols a)
           (fun y x =>
              [Z.land (chan (ucharPtr a y x) 0) (chan (ucharPtr b y x) 0)]);
     erode := fun m => m;
     distanceTransform :=
       fun m => map (fun row => map (fun _ => 1%Q) row) (data m);
     GaussianBlur := fun f => f |}.

(** The runtime whose [findHomography] answers the matrix [H]. *)
Definition cv_of (matches : list (list DMatch)) (H : Mat3) : CvLib :=
  cv_answering matches (Some H, [1; 1; 1; 1]).


(** The shear [(x, y) |-> (x + 10 y - 1, y)]. *)
Definition H_shear : Mat3 := (mkMat3 1 (10 # 1) (-1 # 1) 0 1 0 0 0 1)%Q.


(** Only three of the four matches. *)
Definition three_matches : list (list DMatch) := firstn 3 four_matches.

(** A component state with a single uploaded image. *)
Definition one_image : CreatorState :=
  {| images := [mkUploadedImage 1 1 []]; panorama := None;
     processing := false; progress := ProgressNone; opencvReady := true;
     statusLog := [LogUploaded 1]; showNameModal := false; alerts := [] |}.

(** A component state with two uploaded images, the runtime being loaded
    or not. *)
Definition two_images (ready : bool) : CreatorState :=
  {| images := [mkUploadedImage 1 1 []; mkUploadedImage 2 2 []];
     panorama := None;
     processing := false; progress := ProgressNone; opencvReady := ready;
     statusLog := [LogUploaded 2]; showNameModal := false; alerts := [] |}.

(** A loader that fails on the image with id 2. *)
Definition load_but_second (img : UploadedImage) : option Mat :=
  if id img =? 2 then None else Some (grey 200).

(** A loader that gives every image the same picture. *)
Definition load_grey (img : UploadedImage) : option Mat := Some (grey 200).

End Examples.

(** ** Well-formed matrices *)

(** A matrix whose data has [rows] rows of [cols] pixels each. *)
Definition Mat_wf (m : Mat) : Prop :=
  0 <= rows m /\ 0 <= cols m
  /\ length (data m) = Z.to_nat (rows m)
  /\ Forall (fun row => length row = Z.to_nat (cols m)) (data m).

(** A pixel of three channels, each a byte. *)
Definition rgb_pixel (p : Pixel) : Prop :=
  length p = 3%nat /\ Forall (fun v => 0 <= v <= 255) p.

(** ** The list of uploaded images: [moveImage] and [removeImage] *)

(** A JavaScript array whose slots may hold [undefined]. *)
Definition JsArray (A : Type) := list (option A).

(** [a[i]]: [undefined] outside the array. *)
Definition js_get {A : Type} (a : JsArray A) (i : Z) : option A :=
  if i <? 0 then None else nth (Z.to_nat i) a None.

(** [a[i] = v]: a negative index sets a property that is no element of the
    array, an index past the end extends the array. *)
Definition js_set {A : Type} (a : JsArray A) (i : Z) (v : option A)
  : JsArray A :=
  if i <? 0 then a
  else if i <? Z.of_nat (length a) then
    firstn (Z.to_nat i) a ++ v :: skipn (S (Z.to_nat i)) a
  else a ++ repeat None (Z.to_nat i - length a) ++ [v].

(** The argument [direction] of [moveImage]. *)
Inductive Direction : Type := up | down.

(** The list handed to [setImages] by [moveImage], or the list as it was
    when [setImages] is not called. *)
Definition moveImage {A : Type} (images : JsArray A) (index : Z)
    (direction : Direction) : JsArray A :=
  let newImages := images in
  let newIndex :=
    match direction with up => index - 1 | down => index + 1 end in
  if (0 <=? newIndex) && (newIndex <? Z.of_nat (length newImages)) then
    let at_newIndex := js_get newImages newIndex in
    let at_index := js_get newImages index in
    js_set (js_set newImages index at_newIndex) newIndex at_index
  else images.

(** [xs.filter((_, i) => keep(i))], [i] counting from [start]. *)
Fixpoint filter_index {A : Type} (keep : Z -> bool) (start : Z) (xs : list A)
  : list A :=
  match xs with
  | [] => []
  | x :: rest =>
      if keep start then x :: filter_index keep (start + 1) rest
      else filter_index keep (start + 1) rest
  end.

(** The list handed to [setImages] by [removeImage]. *)
Definition removeImage {A : Type} (images : list A) (index : Z) : list A :=
  filter_index (fun i => negb (i =? index)) 0 images.

(** ** The tour tree of [ImageTree] and [PanoramaViewer] *)

Module Tour.

Definition string := String.string.

Inductive HotspotType : Type := info | link.

(** [Hotspot]. *)
Record Hotspot : Type := mkHotspot {
  hs_id : string;
  hs_position : number * number * number;
  hs_type : HotspotType;
  hs_label : string;
  hs_targetNodeId : option string
}.

(** [ImageNodeData]. *)
#[local] Unset Elimination Schemes.
Inductive ImageNodeData : Type :=
| mkNode (id : string) (imageUrl : string) (label : string)
         (children : list ImageNodeData) (hotspots : list Hotspot).
#[local] Set Elimination Schemes.

Definition node_id (n : ImageNodeData) : string :=
  match n with mkNode id _ _ _ _ => id end.
Definition node_imageUrl (n : ImageNodeData) : string :=
  match n with mkNode _ u _ _ _ => u end.
Definition node_label (n : ImageNodeData) : string :=
  match n with mkNode _ _ l _ _ => l end.
Definition node_children (n : ImageNodeData) : list ImageNodeData :=
  match n with mkNode _ _ _ c _ => c end.
Definition node_hotspots (n : ImageNodeData) : list Hotspot :=
  match n with mkNode _ _ _ _ h => h end.

(** The [for (const child of n.children)] loop of [findNode] and
    [findParent]: the first truthy answer. *)
Definition first_found {A B : Type} (f : A -> option B) : list A -> option B :=
  fix loop (xs : list A) : option B :=
    match xs with
    | [] => None
    | x :: rest =>
        match f x with
        | Some found => Some found
        | None => loop rest
        end
    end.

(** [addChildToNode]. *)
Fixpoint addChildToNode (node : ImageNodeData) (parentId : string)
    (newChild : ImageNodeData) : ImageNodeData :=
  match node with
  | mkNode id imageUrl label children hotspots =>
      if String.eqb id parentId then
        mkNode id imageUrl label (children ++ [newChild]) hotspots
      else
        mkNode id imageUrl label
               (map (fun child => addChildToNode child parentId newChild)
                    children)
               hotspots
  end.

(** [addHotspotToNode]. *)
Fixpoint addHotspotToNode (node : ImageNodeData) (targetNodeId : string)
    (hotspot : Hotspot) : ImageNodeData :=
  match node with
  | mkNode id imageUrl label children hotspots =>
      if String.eqb id targetNodeId then
        mkNode id imageUrl label children (hotspots ++ [hotspot])
      else
        mkNode id imageUrl label
               (map (fun child => addHotspotToNode child targetNodeId hotspot)
                    children)
               hotspots
  end.

(** [findNode], of [handleSaveHotspot] and of [handleNavigate]. *)
Fixpoint findNode (n : ImageNodeData) (id : string) : option ImageNodeData :=
  match n with
  | mkNode nid _ _ children _ =>
      if String.eqb nid id then Some n
      else first_found (fun child => findNode child id) children
  end.

(** [findParent] of the viewer; [parent] is [null] at the root. *)
Fixpoint findParent (node : ImageNodeData) (targetId : string)
    (parent : option ImageNodeData) : option ImageNodeData :=
  match node with
  | mkNode nid _ _ children _ =>
      if String.eqb nid targetId then parent
      else first_found (fun child => findParent child targetId (Some node))
                       children
  end.

(** The ids of a tree, parents before children, left to right. *)
Fixpoint node_ids (n : ImageNodeData) : list string :=
  match n with
  | mkNode id _ _ children _ => id :: flat_map node_ids children
  end.

(** The nodes of a tree, in the same order. *)
Fixpoint nodes (n : ImageNodeData) : list ImageNodeData :=
  match n with
  | mkNode _ _ _ children _ => n :: flat_map nodes children
  end.

(** The part of the state of [ImageTree] that the hotspot and navigation
    handlers use. *)
Record TreeState : Type := mkTreeState {
  rootNode : option ImageNodeData;
  viewingImage : option ImageNodeData
}.

(** A string is truthy unless it is empty. *)
Definition truthy (s : option string) : bool :=
  match s with
  | Some String.EmptyString => false
  | Some _ => true
  | None => false
  end.

(** [handleSaveHotspot]; [newId] is the answer of [generateId()]. *)
Definition handleSaveHotspot (st : TreeState) (newId : string)
    (position : number * number * number) (label : string)
    (targetNodeId : option string) : TreeState :=
  match viewingImage st with
  | None => st
  | Some viewing =>
      let newHotspot :=
        mkHotspot newId position (if truthy targetNodeId then link else info)
                  label targetNodeId in
      match rootNode st with
      | None => st
      | Some prev =>
          let updatedRoot :=
            addHotspotToNode prev (node_id viewing) newHotspot in
          match findNode updatedRoot (node_id viewing) with
          | Some updatedViewingNode =>
              mkTreeState (Some updatedRoot) (Some updatedViewingNode)
          | None => mkTreeState (Some updatedRoot) (viewingImage st)
          end
      end
  end.

(** [handleNavigate]. *)
Definition handleNavigate (st : TreeState) (targetNodeId : string)
  : TreeState :=
  match rootNode st with
  | Some root =>
      match findNode root targetNodeId with
      | Some targetNode => mkTreeState (rootNode st) (Some targetNode)
      | None => st
      end
  | None => st
  end.

(** The nodes a hotspot of the viewer can link to: the parent of the
    current node, when it has one, and its children. *)
Definition linkableNodes (root currentNode : ImageNodeData)
  : list ImageNodeData :=
  match findParent root (node_id currentNode) None with
  | Some parentNode => parentNode :: node_children currentNode
  | None => node_children currentNode
  end.

End Tour.

(** A tour of four pictures: a hall with a kitchen and a garden, and a
    shed behind the garden. *)
Module TourExamples.

Import String.

Definition shed : Tour.ImageNodeData :=
  Tour.mkNode "shed"%string "shed.png"%string "Shed"%string [] [].

Definition kitchen : Tour.ImageNodeData :=
  Tour.mkNode "kitchen"%string "kitchen.png"%string "Kitchen"%string [] [].

Definition garden : Tour.ImageNodeData :=
  Tour.mkNode "garden"%string "garden.png"%string "Garden"%string [shed] [].

Definition hall : Tour.ImageNodeData :=
  Tour.mkNode "hall"%string "hall.png"%string "Hall"%string
              [kitchen; garden] [].

Definition pond : Tour.ImageNodeData :=
  Tour.mkNode "pond"%string "pond.png"%string "Pond"%string [] [].

Definition to_shed : Tour.Hotspot :=
  Tour.mkHotspot "h1"%string (1, 0, 0)%Q Tour.link "Shed"%string
                 (Some "shed"%string).

(** The viewer open on the garden. *)
Definition viewing_garden : Tour.TreeState :=
  Tour.mkTreeState (Some hall) (Some garden).

End TourExamples.

(** * Properties *)

(** ** Numbers *)

Lemma ltb_true_iff (x y : number) : ltb x y = true <-> (x < y)%Q.
Proof.
  unfold ltb. rewrite negb_true_iff.
  split; intros H.
  - apply Qnot_le_lt. intros Hle. apply Qle_bool_iff in Hle. congruence.
  - destruct (Qle_bool y x) eqn:E; [|reflexivity].
    apply Qle_bool_iff in E. exfalso. exact (Qlt_not_le _ _ H E).
Qed.

Lemma ltb_false_iff (x y : number) : ltb x y = false <-> (y <= x)%Q.
Proof.
  unfold ltb. rewrite negb_false_iff. apply Qle_bool_iff.
Qed.

Lemma Math_floor_inject_Z (z : Z) : Math_floor (inject_Z z) = z.
Proof. apply Qfloor_Z. Qed.

Lemma Math_floor_neg_le (x : number) : Math_floor (- x) <= - Math_floor x.
Proof.
  unfold Math_floor.
  pose proof (Qle_floor_ceiling x) as H. unfold Qceiling in H.
  rewrite <- Zle_Qle in H. lia.
Qed.

Lemma Math_abs_floor_nonneg (x : number) : 0 <= Math_floor (Math_abs x).
Proof.
  unfold Math_floor, Math_abs.
  change 0 with (Qfloor 0). apply Qfloor_resp_le, Qabs_nonneg.
Qed.

(** [Math.min] returns a least argument and [Math.max] a greatest one. *)
Lemma Math_min_is_min (x : number) (xs : list number) :
  is_min (Math_min x xs) (x :: xs).
Proof.
  unfold Math_min. revert x.
  induction xs as [|y ys IH]; intros x; simpl.
  - split.
    + exists x. split; [now left | reflexivity].
    + intros z [<- | []]. apply Qle_refl.
  - destruct (IH (Qmin x y)) as [[m [Hin Hm]] Hle]. split.
    + destruct Hin as [Hin | Hin].
      * destruct (Q.min_dec x y) as [E | E].
        -- exists x. split; [now left|]. rewrite <- Hm, <- Hin. symmetry. exact E.
        -- exists y. split; [right; now left|].
           rewrite <- Hm, <- Hin. symmetry. exact E.
      * exists m. split; [right; now right | exact Hm].
    + intros z [<- | [<- | Hz]].
      * eapply Qle_trans; [apply Hle; now left | apply Q.le_min_l].
      * eapply Qle_trans; [apply Hle; now left | apply Q.le_min_r].
      * apply Hle. now right.
Qed.

Lemma Math_max_is_max (x : number) (xs : list number) :
  is_max (Math_max x xs) (x :: xs).
Proof.
  unfold Math_max. revert x.
  induction xs as [|y ys IH]; intros x; simpl.
  - split.
    + exists x. split; [now left | reflexivity].
    + intros z [<- | []]. apply Qle_refl.
  - destruct (IH (Qmax x y)) as [[m [Hin Hm]] Hle]. split.
    + destruct Hin as [Hin | Hin].
      * destruct (Q.max_dec x y) as [E | E].
        -- exists x. split; [now left|]. rewrite <- Hm, <- Hin. symmetry. exact E.
        -- exists y. split; [right; now left|].
           rewrite <- Hm, <- Hin. symmetry. exact E.
      * exists m. split; [right; now right | exact Hm].
    + intros z [<- | [<- | Hz]].
      * eapply Qle_trans; [apply Q.le_max_l | apply Hle; now left].
      * eapply Qle_trans; [apply Q.le_max_r | apply Hle; now left].
      * apply Hle. now right.
Qed.

(** ** The crop stage *)

Lemma corners_min_x_le_corner0 (c : Corners) :
  (corners_min_x c <= px (corner0 c))%Q.
Proof.
  unfold corners_min_x.
  apply (proj2 (Math_min_is_min _ _)). now left.
Qed.

Lemma Math_floor_neg (x : number) : (x < 0)%Q -> Math_floor x < 0.
Proof.
  intros H. unfold Math_floor.
  rewrite Zlt_Qlt. eapply Qle_lt_trans; [apply Qfloor_le | exact H].
Qed.

Lemma Math_floor_nonneg_inv (x : number) : 0 <= Math_floor x -> (0 <= x)%Q.
Proof.
  intros H. unfold Math_floor in H.
  eapply Qle_trans; [|apply Qfloor_le].
  change 0%Q with (inject_Z 0). now rewrite <- Zle_Qle.
Qed.

(** A left extension has a negative floored minimum x. *)
Lemma left_extension_min_x_neg (c : Corners) :
  ltb (px (corner0 c)) 0 = true -> crop_min_x c < 0.
Proof.
  intros H. apply ltb_true_iff in H.
  apply Math_floor_neg.
  eapply Qle_lt_trans; [apply corners_min_x_le_corner0 | exact H].
Qed.

(** With a non-negative floored minimum x the pair is a right extension. *)
Lemma min_x_nonneg_right_extension (c : Corners) :
  0 <= crop_min_x c -> ltb (px (corner0 c)) 0 = false.
Proof.
  intros H. apply ltb_false_iff.
  eapply Qle_trans; [apply Math_floor_nonneg_inv; exact H|].
  apply corners_min_x_le_corner0.
Qed.

Lemma side_x_window_start_nonneg (pano_cols : Z) (c : Corners) :
  0 <= fst (side_x_window pano_cols c).
Proof.
  unfold side_x_window. destruct (ltb _ _); simpl; lia.
Qed.

(** The left boundary of the crop window, in terms of the side rule and of
    the floored minimum x. *)
Lemma crop_x_start_eq (pano_cols pano_rows h_dst : Z) (c : Corners) :
  crop_x_start (cropWindow pano_cols pano_rows h_dst c) =
  if crop_min_x c <? 0
  then Z.max (fst (side_x_window pano_cols c)) (- crop_min_x c)
  else fst (side_x_window pano_cols c).
Proof.
  pose proof (side_x_window_start_nonneg pano_cols c) as Hs.
  unfold cropWindow.
  destruct (side_x_window pano_cols c) as [xs xe].
  cbn [crop_x_start fst] in *.
  rewrite Math_floor_inject_Z.
  destruct (crop_min_x c <? 0); lia.
Qed.

Lemma crop_x_end_eq (pano_cols pano_rows h_dst : Z) (c : Corners) :
  crop_x_end (cropWindow pano_cols pano_rows h_dst c) =
  Z.min pano_cols (snd (side_x_window pano_cols c)).
Proof.
  unfold cropWindow.
  destruct (side_x_window pano_cols c) as [xs xe]; reflexivity.
Qed.

Lemma crop_y_start_eq (pano_cols pano_rows h_dst : Z) (c : Corners) :
  crop_y_start (cropWindow pano_cols pano_rows h_dst c) =
  Z.max 0 (- crop_min_y c).
Proof.
  unfold cropWindow.
  destruct (side_x_window pano_cols c) as [xs xe]; reflexivity.
Qed.

Lemma crop_y_end_eq (pano_cols pano_rows h_dst : Z) (c : Corners) :
  crop_y_end (cropWindow pano_cols pano_rows h_dst c) =
  Z.min pano_rows (- crop_min_y c + h_dst).
Proof.
  unfold cropWindow.
  destruct (side_x_window pano_cols c) as [xs xe].
  cbn [crop_y_end]. lia.
Qed.

Lemma cropPanorama_degenerate (pano : Mat) (h_dst : Z) (corners : Corners) :
  window_width (cropWindow (cols pano) (rows pano) h_dst corners) <= 0
  \/ window_height (cropWindow (cols pano) (rows pano) h_dst corners) <= 0 ->
  cropPanorama pano h_dst corners = pano.
Proof.
  intros H. unfold cropPanorama.
  destruct H as [H | H]; apply Z.leb_le in H; rewrite H.
  - reflexivity.
  - now rewrite orb_true_r.
Qed.

(** C8: a crop window of non-positive width or height makes [cropPanorama]
    return the panorama it was given, unchanged; the function has no
    failure of its own. *)
Theorem crop_degenerate_window_returns_input
    (pano : Mat) (h_dst : Z) (corners : Corners) :
  let w := cropWindow (cols pano) (rows pano) h_dst corners in
  window_width w <= 0 \/ window_height w <= 0 ->
  cropPanorama pano h_dst corners = pano.
Proof.
  intros w H. now apply cropPanorama_degenerate.
Qed.

Lemma crop_degenerate_window_returns_input_witness :
  window_width (cropWindow 4 2 2 Examples.corners_shift_left) <= 0
  /\ cropPanorama (Examples.grey 100) 2 Examples.corners_shift_left
     = Examples.grey 100.
Proof.
  split.
  - vm_compute. discriminate.
  - apply crop_degenerate_window_returns_input.
    left. vm_compute. discriminate.
Defined.

(** C10: when the floored minimum x of the corners is negative, the left
    crop boundary is the larger of the boundary of the side rule and
    [floor(- min_x)], for a left extension and for a right extension alike:
    it is at least [floor(- min_x)], whether [min_x] is read as the floored
    or as the raw minimum, and never left of the boundary of the side
    rule. *)
Theorem crop_left_boundary_raised_by_min_x
    (pano_cols pano_rows h_dst : Z) (corners : Corners) :
  crop_min_x corners < 0 ->
  let w := cropWindow pano_cols pano_rows h_dst corners in
  let side_start := fst (side_x_window pano_cols corners) in
  crop_x_start w =
    Z.max side_start (Math_floor (inject_Z (- crop_min_x corners)))
  /\ Math_floor (inject_Z (- crop_min_x corners)) <= crop_x_start w
  /\ Math_floor (- corners_min_x corners) <= crop_x_start w
  /\ side_start <= crop_x_start w
  /\ side_start =
       (if ltb (px (corner0 corners)) 0
        then Z.max 0 (Math_floor (Math_abs (px (corner1 corners)
                                            - px (corner0 corners))))
        else 0).
Proof.
  intros Hneg w side_start. subst w side_start.
  rewrite crop_x_start_eq, Math_floor_inject_Z.
  apply Z.ltb_lt in Hneg. rewrite Hneg.
  pose proof (Math_floor_neg_le (corners_min_x corners)) as Hraw.
  fold (crop_min_x corners) in Hraw.
  repeat split; try lia.
  unfold side_x_window. now destruct (ltb _ _).
Qed.

Lemma crop_left_boundary_raised_by_min_x_witness :
  crop_x_start (cropWindow 110 100 100 Examples.corners_shift_left) = 10
  /\ 10 <= crop_x_start (cropWindow 110 100 100 Examples.corners_shift_left).
Proof.
  destruct (crop_left_boundary_raised_by_min_x
              110 100 100 Examples.corners_shift_left)
    as (Heq & Hge & _).
  - vm_compute. reflexivity.
  - split; [rewrite Heq; vm_compute; reflexivity | exact Hge].
Defined.

(** C2, as stated, fails: for the left extension [corners_shift_left] the
    left crop boundary is 10, not the width 50 between the top-right and
    the top-left corner, with or without [Math.floor]. *)
Lemma crop_left_edge_is_not_top_overlap_width :
  ~ (forall pano_cols pano_rows h_dst c,
        ltb (px (corner0 c)) 0 = true ->
        (inject_Z (crop_x_start (cropWindow pano_cols pano_rows h_dst c))
         == Spec.left_overlap_width c)%Q)
  /\ ~ (forall pano_cols pano_rows h_dst c,
        ltb (px (corner0 c)) 0 = true ->
        crop_x_start (cropWindow pano_cols pano_rows h_dst c)
        = Math_floor (Spec.left_overlap_width c)).
Proof.
  split; intros H;
    specialize (H 110 100 100 Examples.corners_shift_left eq_refl);
    vm_compute in H; discriminate H.
Qed.

(** C2, amended: for a left extension (index 0 has negative x) the right
    edge stays at [pano.cols] and the left edge is the larger of
    [floor |corners[1].x - corners[0].x|], index 1 being the bottom-left
    corner, and the negated floored minimum x; for a right extension the
    right edge is [min(pano.cols, ceil(min(corners[2].x, corners[3].x)))],
    indices 2 and 3 being the bottom-right and top-right corners, and the
    left edge is 0, or the negated floored minimum x when that minimum is
    negative. *)
Theorem crop_x_window_by_side
    (pano_cols pano_rows h_dst : Z) (corners : Corners) :
  let w := cropWindow pano_cols pano_rows h_dst corners in
  if ltb (px (corner0 corners)) 0 then
    crop_x_start w =
      Z.max (Math_floor (Math_abs (px (corner1 corners)
                                   - px (corner0 corners))))
            (- crop_min_x corners)
    /\ crop_x_end w = pano_cols
  else
    crop_x_end w =
      Z.min pano_cols
            (Math_ceil (Qmin (px (corner2 corners)) (px (corner3 corners))))
    /\ crop_x_start w =
         (if crop_min_x corners <? 0 then - crop_min_x corners else 0).
Proof.
  intros w. subst w.
  rewrite crop_x_start_eq, crop_x_end_eq.
  destruct (ltb (px (corner0 corners)) 0) eqn:Hside.
  - pose proof (left_extension_min_x_neg corners Hside) as Hneg.
    apply Z.ltb_lt in Hneg. rewrite Hneg.
    unfold side_x_window. rewrite Hside. cbn [fst snd].
    pose proof (Math_abs_floor_nonneg
                  (px (corner1 corners) - px (corner0 corners))%Q).
    split; lia.
  - unfold side_x_window. rewrite Hside. cbn [fst snd].
    split; [lia|].
    destruct (crop_min_x corners <? 0) eqn:E; [|reflexivity].
    apply Z.ltb_lt in E. lia.
Qed.

(** ** Idempotence of the crop *)

Lemma firstn_map_firstn {A : Type} (n m : nat) (l : list (list A)) :
  map (fun row => firstn m (skipn 0 row))
      (firstn n (skipn 0
         (map (fun row => firstn m (skipn 0 row)) (firstn n (skipn 0 l)))))
  = map (fun row => firstn m (skipn 0 row)) (firstn n (skipn 0 l)).
Proof.
  cbn [skipn].
  rewrite firstn_map, firstn_firstn, Nat.min_id.
  rewrite map_map. apply map_ext.
  intros row. now rewrite firstn_firstn, Nat.min_id.
Qed.

(** C7, as stated, fails: the canvas [pano_small] of a left extension loses
    two more columns when it is cropped a second time. *)
Lemma crop_twice_differs_from_crop_once :
  width_pano (canvasGeometry 4 1 Examples.corners_small_left)
    = cols Examples.pano_small
  /\ height_pano (canvasGeometry 4 1 Examples.corners_small_left)
    = rows Examples.pano_small
  /\ cols (cropPanorama Examples.pano_small 1 Examples.corners_small_left) = 4
  /\ cols (cropPanorama
             (cropPanorama Examples.pano_small 1 Examples.corners_small_left)
             1 Examples.corners_small_left) = 2
  /\ cropPanorama
       (cropPanorama Examples.pano_small 1 Examples.corners_small_left)
       1 Examples.corners_small_left
     <> cropPanorama Examples.pano_small 1 Examples.corners_small_left.
Proof.
  repeat split; try (vm_compute; reflexivity).
  vm_compute. discriminate.
Qed.

(** C7, amended: when the floored minimum x and the floored minimum y of
    the corners are both non-negative, so that the crop window starts at
    the origin, cropping the cropped panorama again with the same height
    and corners returns it unchanged. *)
Theorem crop_idempotent_when_window_at_origin
    (pano : Mat) (h_dst : Z) (corners : Corners) :
  0 <= crop_min_x corners ->
  0 <= crop_min_y corners ->
  cropPanorama (cropPanorama pano h_dst corners) h_dst corners
  = cropPanorama pano h_dst corners.
Proof.
  intros Hx Hy.
  assert (Hxs : forall pc pr,
             crop_x_start (cropWindow pc pr h_dst corners) = 0).
  { intros pc pr. rewrite crop_x_start_eq.
    destruct (crop_min_x corners <? 0) eqn:E;
      [apply Z.ltb_lt in E; lia|].
    unfold side_x_window.
    now rewrite (min_x_nonneg_right_extension corners Hx). }
  assert (Hys : forall pc pr,
             crop_y_start (cropWindow pc pr h_dst corners) = 0).
  { intros pc pr. rewrite crop_y_start_eq. lia. }
  unfold cropPanorama at 2 3.
  set (w1 := cropWindow (cols pano) (rows pano) h_dst corners).
  destruct ((window_width w1 <=? 0) || (window_height w1 <=? 0)) eqn:Hdeg.
  - unfold cropPanorama. fold w1. now rewrite Hdeg.
  - apply orb_false_iff in Hdeg. destruct Hdeg as [Hw Hh].
    apply Z.leb_gt in Hw, Hh.
    unfold window_width, window_height in *.
    assert (Hx1 : crop_x_start w1 = 0) by apply Hxs.
    assert (Hy1 : crop_y_start w1 = 0) by apply Hys.
    rewrite Hx1, Hy1, !Z.sub_0_r in *.
    unfold cropPanorama.
    cbn [cols rows roi_clone rect_x rect_y rect_width rect_height].
    set (w2 := cropWindow (crop_x_end w1) (crop_y_end w1) h_dst corners).
    assert (Hxe : crop_x_end w2 = crop_x_end w1).
    { subst w1 w2. rewrite !crop_x_end_eq.
      unfold side_x_window.
      rewrite (min_x_nonneg_right_extension corners Hx). cbn [snd]. lia. }
    assert (Hye : crop_y_end w2 = crop_y_end w1).
    { subst w1 w2. rewrite !crop_y_end_eq. lia. }
    unfold window_width, window_height.
    rewrite (Hxs _ _ : crop_x_start w2 = 0), (Hys _ _ : crop_y_start w2 = 0).
    rewrite Hxe, Hye, !Z.sub_0_r.
    destruct ((crop_x_end w1 <=? 0) || (crop_y_end w1 <=? 0)) eqn:Hdeg2.
    + reflexivity.
    + unfold roi_clone. cbn [rect_x rect_y rect_width rect_height data].
      change (Z.to_nat 0) with 0%nat.
      now rewrite firstn_map_firstn.
Qed.

Lemma crop_idempotent_when_window_at_origin_witness :
  0 <= crop_min_x (corners_of (pts1 3 2))
  /\ 0 <= crop_min_y (corners_of (pts1 3 2))
  /\ cropPanorama (cropPanorama (Examples.grey 100) 1 (corners_of (pts1 3 2)))
                  1 (corners_of (pts1 3 2))
     = cropPanorama (Examples.grey 100) 1 (corners_of (pts1 3 2)).
Proof.
  split; [vm_compute; discriminate|].
  split; [vm_compute; discriminate|].
  apply crop_idempotent_when_window_at_origin; vm_compute; discriminate.
Defined.

(** ** Canvas geometry *)

(** C4: the pair is a left extension exactly when the transformed top-left
    corner (index 0) has negative x; then the canvas is
    [ceil(w_dst + t_x)] wide and the fixed image sits at x-offset
    [round(t_x)]; otherwise it is a right extension, [ceil] of the x of the
    transformed top-right corner (index 3) wide, with x-offset 0.  In both
    cases the height is [ceil(maxY - minY)] and the y-offset [round(t_y)],
    with [t_x = - minX] and [t_y = - minY], the extrema being taken over the
    transformed corners together with the corners of the fixed image. *)
Theorem canvas_geometry_by_side (w_dst h_dst : Z) (corners_src : Corners) :
  let cnv := canvasGeometry w_dst h_dst corners_src in
  let all := all_corners w_dst h_dst corners_src in
  exists minX minY maxY : number,
    is_min minX (map px all)
    /\ is_min minY (map py all)
    /\ is_max maxY (map py all)
    /\ t_x cnv = (- minX)%Q
    /\ t_y cnv = (- minY)%Q
    /\ height_pano cnv = Math_ceil (maxY - minY)
    /\ dst_y cnv = Math_round (t_y cnv)
    /\ (if ltb (px (corner0 corners_src)) 0
        then side cnv = side_left
             /\ width_pano cnv = Math_ceil (inject_Z w_dst + t_x cnv)
             /\ dst_x cnv = Math_round (t_x cnv)
        else side cnv = side_right
             /\ width_pano cnv = Math_ceil (px (corner3 corners_src))
             /\ dst_x cnv = 0).
Proof.
  intros cnv all.
  exists (Math_min (px (corner0 corners_src)) (map px (tl all))),
         (Math_min (py (corner0 corners_src)) (map py (tl all))),
         (Math_max (py (corner0 corners_src)) (map py (tl all))).
  split; [apply (Math_min_is_min (px (corner0 corners_src)))|].
  split; [apply (Math_min_is_min (py (corner0 corners_src)))|].
  split; [apply (Math_max_is_max (py (corner0 corners_src)))|].
  subst cnv all. unfold canvasGeometry. cbn [t_x t_y height_pano dst_y
    side width_pano dst_x].
  repeat (split; [reflexivity|]).
  destruct (ltb (px (corner0 corners_src)) 0); repeat split.
Qed.

(** ** Blending *)

Lemma to_uint8_byte (z : Z) : 0 <= z <= 255 -> to_uint8 z = z.
Proof. intros H. unfold to_uint8. apply Z.mod_small. lia. Qed.

Lemma inject_Z_byte (z : Z) :
  0 <= z <= 255 -> (0 <= inject_Z z /\ inject_Z z <= 255)%Q.
Proof.
  intros [H0 H1]. split.
  - change 0%Q with (inject_Z 0). now rewrite <- Zle_Qle.
  - change 255%Q with (inject_Z 255). now rewrite <- Zle_Qle.
Qed.

Lemma Math_round_byte (x : number) :
  (0 <= x)%Q -> (x <= 255)%Q -> 0 <= Math_round x <= 255.
Proof.
  intros H0 H1. unfold Math_round. split.
  - change 0 with (Qfloor 0). apply Qfloor_resp_le. lra.
  - change 255 with (Qfloor (511 # 2)). apply Qfloor_resp_le. lra.
Qed.

(** The weights of the blend are non-negative and add up to 1, so the
    weighted sum of two bytes lies between 0 and 255. *)
Lemma weighted_sum_byte (a b d_dst d_src : number) :
  (0 <= a)%Q -> (a <= 255)%Q -> (0 <= b)%Q -> (b <= 255)%Q ->
  (0 <= d_dst)%Q -> (0 <= d_src)%Q -> (0 < d_dst + d_src)%Q ->
  (0 <= a * (d_dst / (d_dst + d_src)) + b * (d_src / (d_dst + d_src))
   /\ a * (d_dst / (d_dst + d_src)) + b * (d_src / (d_dst + d_src)) <= 255)%Q.
Proof.
  intros Ha0 Ha1 Hb0 Hb1 Hd Hs Ht.
  set (t := (d_dst + d_src)%Q) in *.
  assert (Hw1 : (0 <= d_dst / t)%Q).
  { apply Qle_shift_div_l; [exact Ht | lra]. }
  assert (Hw2 : (0 <= d_src / t)%Q).
  { apply Qle_shift_div_l; [exact Ht | lra]. }
  assert (Hsum : (d_dst / t + d_src / t == 1)%Q).
  { subst t. field. lra. }
  assert (H1 : (0 <= a * (d_dst / t))%Q) by (apply Qmult_le_0_compat; assumption).
  assert (H2 : (0 <= b * (d_src / t))%Q) by (apply Qmult_le_0_compat; assumption).
  assert (H3 : (a * (d_dst / t) <= 255 * (d_dst / t))%Q)
    by (apply Qmult_le_compat_r; assumption).
  assert (H4 : (b * (d_src / t) <= 255 * (d_src / t))%Q)
    by (apply Qmult_le_compat_r; assumption).
  split; [lra|].
  generalize dependent (d_dst / t)%Q. generalize dependent (d_src / t)%Q.
  intros w2 Hw2 H2 H4 w1 Hw1 Hsum H1 H3. lra.
Qed.

Lemma nth_range (n : Z) (i : Z) :
  0 <= i < n -> nth (Z.to_nat i) (range n) 0 = i.
Proof.
  intros H. unfold range.
  rewrite (nth_indep _ 0 (Z.of_nat 0)) by (rewrite length_map, length_seq; lia).
  rewrite map_nth, seq_nth by lia. lia.
Qed.

Lemma nth_map_range {A : Type} (f : Z -> A) (d : A) (n i : Z) :
  0 <= i < n -> nth (Z.to_nat i) (map f (range n)) d = f i.
Proof.
  intros H.
  rewrite (nth_indep _ d (f 0))
    by (unfold range; rewrite !length_map, length_seq; lia).
  now rewrite map_nth, nth_range.
Qed.

(** Reading back a pixel of a matrix that was filled pixel by pixel. *)
Lemma ucharPtr_build_mat (h w : Z) (f : Z -> Z -> Pixel) (y x : Z) :
  0 <= y < h -> 0 <= x < w -> ucharPtr (build_mat h w f) y x = f y x.
Proof.
  intros Hy Hx. unfold ucharPtr, build_mat. cbn [data].
  rewrite (nth_map_range (fun y => map (fun x => f y x) (range w))) by exact Hy.
  now apply nth_map_range.
Qed.

(** The pixel written for a position of the overlap. *)
Lemma blendPixel_in_overlap (dst_pix src_pix : Pixel) (has_dst has_src : bool)
    (d_dst d_src : number) :
  byte_pixel dst_pix -> byte_pixel src_pix ->
  (0 <= d_dst)%Q -> (0 <= d_src)%Q ->
  blendPixel dst_pix src_pix has_dst has_src true d_dst d_src =
  if gtb (d_dst + d_src) (1 # 100) then
    map (fun c =>
           Math_round (inject_Z (chan dst_pix c) * (d_dst / (d_dst + d_src))
                       + inject_Z (chan src_pix c) * (d_src / (d_dst + d_src))))
        channels
  else
    map (fun c =>
           Math_round (inject_Z (chan dst_pix c + chan src_pix c) / 2))
        channels.
Proof.
  intros Hdst Hsrc Hd Hs. unfold blendPixel.
  destruct (gtb (d_dst + d_src) (1 # 100)) eqn:Hgt.
  - apply ltb_true_iff in Hgt.
    apply map_ext. intros c.
    destruct (inject_Z_byte _ (Hdst c)) as [Ha0 Ha1].
    destruct (inject_Z_byte _ (Hsrc c)) as [Hb0 Hb1].
    assert (Ht : (0 < d_dst + d_src)%Q) by lra.
    destruct (weighted_sum_byte _ _ _ _ Ha0 Ha1 Hb0 Hb1 Hd Hs Ht) as [L U].
    apply to_uint8_byte, Math_round_byte; assumption.
  - apply map_ext. intros c.
    pose proof (Hdst c) as Ha. pose proof (Hsrc c) as Hb.
    assert (H0 : (0 <= inject_Z (chan dst_pix c + chan src_pix c))%Q).
    { change 0%Q with (inject_Z 0). rewrite <- Zle_Qle. lia. }
    assert (H1 : (inject_Z (chan dst_pix c + chan src_pix c) <= 510)%Q).
    { change 510%Q with (inject_Z 510). rewrite <- Zle_Qle. lia. }
    apply to_uint8_byte, Math_round_byte.
    + apply Qle_shift_div_l; lra.
    + apply Qle_shift_div_r; lra.
Qed.

(** Every [float32] is an integer multiple of [2^-149]. *)
Lemma float32_scaled (q : number) :
  float32 q ->
  exists m k : Z,
    Z.abs m < 2 ^ 24 /\ 0 <= k <= 253
    /\ (q * inject_Z (2 ^ 149) == inject_Z (m * 2 ^ k))%Q.
Proof.
  intros (m & e & Hm & He & Hq). exists m, (e + 149). split; [exact Hm|].
  split; [lia|].
  rewrite Hq, inject_Z_mult.
  rewrite (Zpower_Qpower 2 149) by lia.
  rewrite (Zpower_Qpower 2 (e + 149)) by lia.
  change (inject_Z 2) with (2 # 1)%Q.
  rewrite (Qpower_plus (2 # 1) e 149) by discriminate.
  ring.
Qed.



(** The same in binary64, where the literal [0.01] is [binary64_0_01] and
    the sum of the two distances is rounded: with its leading bit at
    [2^-7] the literal has its last bit at [2^-59], and the exact total of
    two distances is at least [2^-59] away from it, which is twice the
    largest rounding error of a sum of that size. *)
Lemma scaled_sum_apart_ordered (ma ka mb kb : Z) :
  ma < 2 ^ 24 -> 0 <= ka -> mb < 2 ^ 24 -> 0 <= kb ->
  0 <= mb * 2 ^ kb <= ma * 2 ^ ka ->
  2 ^ 90 <= Z.abs (ma * 2 ^ ka + mb * 2 ^ kb - 5764607523034235 * 2 ^ 90).
Proof.
  intros Hma Hka Hmb Hkb Hord.
  destruct (Z_le_gt_dec (2 ^ 90)
              (Z.abs (ma * 2 ^ ka + mb * 2 ^ kb - 5764607523034235 * 2 ^ 90)))
    as [Hle | Hgt]; [exact Hle | exfalso].
  assert (Hbig : 2 ^ 141 < ma * 2 ^ ka).
  { change (2 ^ 141) with 2787593149816327892691964784081045188247552.
    change (2 ^ 90) with 1237940039285380274899124224 in Hgt. lia. }
  assert (Hka' : 118 <= ka).
  { destruct (Z_le_gt_dec 118 ka) as [H | H]; [exact H | exfalso].
    assert (H1 : 2 ^ ka <= 2 ^ 117) by (apply Z.pow_le_mono_r; lia).
    assert (H0 : 0 < 2 ^ ka) by (apply Z.pow_pos_nonneg; lia).
    assert (H2 : ma * 2 ^ ka <= 2 ^ 24 * 2 ^ 117).
    { apply Z.mul_le_mono_nonneg; (lia || nia). }
    change (2 ^ 24 * 2 ^ 117) with (2 ^ 141) in H2. lia. }
  assert (EA : ma * 2 ^ ka = 2 ^ 118 * (ma * 2 ^ (ka - 118))).
  { replace ka with (118 + (ka - 118)) at 1 by lia.
    rewrite Z.pow_add_r by lia. ring. }
  destruct (Z_le_gt_dec 91 kb) as [Hkb' | Hkb'].
  - assert (EB : mb * 2 ^ kb = 2 ^ 91 * (mb * 2 ^ (kb - 91))).
    { replace kb with (91 + (kb - 91)) at 1 by lia.
      rewrite Z.pow_add_r by lia. ring. }
    rewrite EA, EB in Hgt.
    generalize dependent (ma * 2 ^ (ka - 118)).
    generalize dependent (mb * 2 ^ (kb - 91)).
    intros.
    change (2 ^ 118) with 332306998946228968225951765070086144 in *.
    change (2 ^ 91) with 2475880078570760549798248448 in *.
    change (2 ^ 90) with 1237940039285380274899124224 in *.
    lia.
  - assert (HB : mb * 2 ^ kb < 2 ^ 24 * 2 ^ 90).
    { assert (H1 : 2 ^ kb <= 2 ^ 90) by (apply Z.pow_le_mono_r; lia).
      assert (H0 : 0 < 2 ^ kb) by (apply Z.pow_pos_nonneg; lia).
      nia. }
    rewrite EA in Hgt.
    generalize dependent (ma * 2 ^ (ka - 118)).
    generalize dependent (mb * 2 ^ kb).
    intros.
    change (2 ^ 118) with 332306998946228968225951765070086144 in *.
    change (2 ^ 24 * 2 ^ 90) with 20769187434139310514121985316880384 in *.
    change (2 ^ 90) with 1237940039285380274899124224 in *.
    lia.
Qed.

Lemma scaled_sum_apart (ma ka mb kb : Z) :
  ma < 2 ^ 24 -> 0 <= ka -> mb < 2 ^ 24 -> 0 <= kb ->
  0 <= ma * 2 ^ ka -> 0 <= mb * 2 ^ kb ->
  2 ^ 90 <= Z.abs (ma * 2 ^ ka + mb * 2 ^ kb - 5764607523034235 * 2 ^ 90).
Proof.
  intros Hma Hka Hmb Hkb HA HB.
  destruct (Z_le_gt_dec (mb * 2 ^ kb) (ma * 2 ^ ka)) as [H | H].
  - apply scaled_sum_apart_ordered; lia.
  - rewrite (Z.add_comm (ma * 2 ^ ka)). apply scaled_sum_apart_ordered; lia.
Qed.

Lemma float32_sum_apart_from_binary64_literal (a b : number) :
  float32 a -> float32 b -> (0 <= a)%Q -> (0 <= b)%Q ->
  (1 # 576460752303423488 <= Qabs (a + b - binary64_0_01))%Q.
Proof.
  intros Ha Hb Ha0 Hb0.
  destruct (float32_scaled a Ha) as (ma & ka & Hma & Hka & Ea).
  destruct (float32_scaled b Hb) as (mb & kb & Hmb & Hkb & Eb).
  assert (Hs : (0 < inject_Z (2 ^ 149))%Q) by reflexivity.
  assert (HA : 0 <= ma * 2 ^ ka).
  { rewrite Zle_Qle, <- Ea. apply Qmult_le_0_compat; [exact Ha0|].
    now apply Qlt_le_weak. }
  assert (HB : 0 <= mb * 2 ^ kb).
  { rewrite Zle_Qle, <- Eb. apply Qmult_le_0_compat; [exact Hb0|].
    now apply Qlt_le_weak. }
  assert (E : ((a + b - binary64_0_01) * inject_Z (2 ^ 149)
               == inject_Z (ma * 2 ^ ka + mb * 2 ^ kb
                            - 5764607523034235 * 2 ^ 90))%Q).
  { unfold Zminus. rewrite !inject_Z_plus, <- Ea, <- Eb, inject_Z_opp.
    assert (Ec : (binary64_0_01 * inject_Z (2 ^ 149)
                  == inject_Z (5764607523034235 * 2 ^ 90))%Q) by reflexivity.
    rewrite <- Ec. ring. }
  apply (Qmult_le_r _ _ (inject_Z (2 ^ 149)) Hs).
  rewrite <- (Qabs_pos (inject_Z (2 ^ 149))) at 2 by (now apply Qlt_le_weak).
  rewrite <- Qabs_Qmult, E.
  assert (El : ((1 # 576460752303423488) * inject_Z (2 ^ 149)
                == inject_Z (2 ^ 90))%Q) by reflexivity.
  rewrite El.
  change (Qabs (inject_Z ?n)) with (inject_Z (Z.abs n)).
  rewrite <- Zle_Qle.
  apply scaled_sum_apart; lia.
Qed.

(** So the test [total > 0.01] comes out the same against the hundredth and
    against the binary64 literal. *)
Lemma float32_sum_threshold_binary64 (a b : number) :
  float32 a -> float32 b -> (0 <= a)%Q -> (0 <= b)%Q ->
  gtb (a + b) (1 # 100) = gtb (a + b) binary64_0_01.
Proof.
  intros Ha Hb Ha0 Hb0.
  pose proof (float32_sum_apart_from_binary64_literal a b Ha Hb Ha0 Hb0)
    as Hapart.
  assert (Hc : (binary64_0_01 - (1 # 100) < 1 # 576460752303423488)%Q)
    by reflexivity.
  assert (Hc' : (1 # 100 < binary64_0_01)%Q) by reflexivity.
  destruct (gtb (a + b) (1 # 100)) eqn:H1;
    destruct (gtb (a + b) binary64_0_01) eqn:H2; try reflexivity; exfalso.
  - apply ltb_true_iff in H1. apply ltb_false_iff in H2.
    rewrite Qabs_neg in Hapart by lra. lra.
  - apply ltb_false_iff in H1. apply ltb_true_iff in H2. lra.
Qed.


Ltac byte_pixel_of_literal :=
  let c := fresh "c" in
  intros c; unfold chan;
  do 4 (destruct c as [|c]; [cbn; lia|]);
  destruct c; cbn; lia.


(** ** The ratio test *)

Lemma ratio_test_In (x : DMatch) (match_pair : list DMatch) :
  In x (ratio_test match_pair) <->
  exists n rest, match_pair = x :: n :: rest
                 /\ (distance x < (75 # 100) * distance n)%Q.
Proof.
  unfold ratio_test. split.
  - destruct match_pair as [|m [|n rest]]; try (intros []).
    destruct (ltb _ _) eqn:E; [|intros []].
    intros [<- | []]. exists n, rest. split; [reflexivity|].
    now apply ltb_true_iff.
  - intros (n & rest & -> & Hlt).
    apply ltb_true_iff in Hlt. rewrite Hlt. now left.
Qed.

(** A pair with fewer than two candidates contributes nothing. *)
Lemma ratio_test_short (match_pair : list DMatch) :
  (length match_pair < 2)%nat -> ratio_test match_pair = [].
Proof.
  destruct match_pair as [|m [|n rest]]; cbn; intros H;
    [reflexivity | reflexivity | lia].
Qed.

(** ** Control flow of [stitchTwoImages] *)

Lemma Ok_inj {A : Type} (a b : A) : Ok a = Ok b -> a = b.
Proof. intros H. now injection H. Qed.

(** What the pair yields once the canvas is known: the exception of the
    allocation, the deleted canvas, or the clone made by the crop. *)
Lemma stitch_from_homography_result
    (cv : CvLib) (dst_img src_img : Mat) (imageNum : Z) (H : Mat3) :
  let cnv := canvas_of cv dst_img src_img H in
  let pano := blended_canvas_of cv dst_img src_img H in
  snd (stitch_from_homography cv dst_img src_img imageNum H) =
  if (height_pano cnv <? 0) || (width_pano cnv <? 0) then Err CvException
  else if crop_returns_input pano (rows dst_img) (corners_src_of cv src_img H)
       then Ok deleted
       else Ok (live (cropPanorama pano (rows dst_img)
                                   (corners_src_of cv src_img H))).
Proof.
  intros cnv pano. unfold stitch_from_homography. fold cnv. fold pano.
  destruct ((height_pano cnv <? 0) || (width_pano cnv <? 0));
    [reflexivity|].
  destruct (crop_returns_input pano (rows dst_img)
                              (corners_src_of cv src_img H)); reflexivity.
Qed.

Lemma stitch_from_homography_error
    (cv : CvLib) (dst_img src_img : Mat) (imageNum : Z) (H : Mat3)
    (e : StitchError) :
  snd (stitch_from_homography cv dst_img src_img imageNum H) = Err e ->
  e = CvException.
Proof.
  rewrite stitch_from_homography_result.
  destruct (_ || _); [now intros [= <-]|].
  destruct (crop_returns_input _ _ _); discriminate.
Qed.

Lemma stitchTwoImages_enough_features
    (cv : CvLib) (dst_img src_img : Mat) (imageNum : Z) :
  (4 <= length (keypoints_of cv dst_img))%nat ->
  (4 <= length (keypoints_of cv src_img))%nat ->
  let good := good_matches_of (matches_of cv dst_img src_img) in
  snd (stitchTwoImages cv dst_img src_img imageNum) =
  if (length good <? 4)%nat then Err NotEnoughGoodMatches
  else match fst (homography_of cv dst_img src_img) with
       | None => Err CvException
       | Some H => snd (stitch_from_homography cv dst_img src_img imageNum H)
       end.
Proof.
  intros Hd Hs good. unfold stitchTwoImages.
  apply Nat.ltb_ge in Hd, Hs. rewrite Hd, Hs. cbn [orb].
  fold good. destruct (length good <? 4)%nat; [reflexivity|].
  destruct (fst (homography_of cv dst_img src_img)) as [H|]; [|reflexivity].
  generalize (stitch_from_homography cv dst_img src_img imageNum H).
  intros [log r]. reflexivity.
Qed.

(** C6: a match [x] is kept exactly when its pair of candidates starts with
    [x] followed by a second-best [n] such that
    [distance x < 0.75 * distance n]; and once both images have their four
    key points, the pair fails with "Not enough good matches" exactly when
    fewer than 4 matches are kept. *)
Theorem ratio_test_keeps_and_insufficient_matches
    (cv : CvLib) (dst_img src_img : Mat) (imageNum : Z) :
  (4 <= length (keypoints_of cv dst_img))%nat ->
  (4 <= length (keypoints_of cv src_img))%nat ->
  let matches := matches_of cv dst_img src_img in
  (forall x,
      In x (good_matches_of matches) <->
      exists n rest, In (x :: n :: rest) matches
                     /\ (distance x < (75 # 100) * distance n)%Q)
  /\ (snd (stitchTwoImages cv dst_img src_img imageNum)
        = Err NotEnoughGoodMatches
      <-> (length (good_matches_of matches) < 4)%nat).
Proof.
  intros Hd Hs matches. split.
  - intros x. unfold good_matches_of. rewrite in_flat_map. split.
    + intros (p & Hp & Hx). apply ratio_test_In in Hx.
      destruct Hx as (n & rest & -> & Hlt). now exists n, rest.
    + intros (n & rest & Hin & Hlt). exists (x :: n :: rest).
      split; [exact Hin|]. apply ratio_test_In. now exists n, rest.
  - rewrite (stitchTwoImages_enough_features cv dst_img src_img imageNum Hd Hs).
    fold matches.
    destruct (length (good_matches_of matches) <? 4)%nat eqn:E.
    + apply Nat.ltb_lt in E. tauto.
    + apply Nat.ltb_ge in E. split; [|lia].
      destruct (fst (homography_of cv dst_img src_img)) as [H|];
        [|discriminate].
      intros Hc. apply stitch_from_homography_error in Hc. discriminate Hc.
Qed.

Lemma ratio_test_keeps_and_insufficient_matches_witness :
  snd (stitchTwoImages (Examples.cv_of Examples.ambiguous_matches
                                       Examples.H_collapse)
                       (Examples.grey 200) (Examples.grey 100) 1)
    = Err NotEnoughGoodMatches
  /\ snd (stitchTwoImages (Examples.cv_of Examples.four_matches
                                          Examples.H_collapse)
                          (Examples.grey 200) (Examples.grey 100) 1)
    <> Err NotEnoughGoodMatches.
Proof.
  split.
  - apply (ratio_test_keeps_and_insufficient_matches
             (Examples.cv_of Examples.ambiguous_matches Examples.H_collapse)
             (Examples.grey 200) (Examples.grey 100) 1).
    + vm_compute. lia.
    + vm_compute. lia.
    + vm_compute. lia.
  - intros H.
    apply (ratio_test_keeps_and_insufficient_matches
             (Examples.cv_of Examples.four_matches Examples.H_collapse)
             (Examples.grey 200) (Examples.grey 100) 1) in H.
    + vm_compute in H. lia.
    + vm_compute. lia.
    + vm_compute. lia.
Defined.

(** ** The run over the images *)

Lemma stitch_loop_deleted (cv : CvLib) (rest : list Mat) (i : Z) :
  snd (stitch_loop cv deleted rest i) = Ok deleted
  \/ snd (stitch_loop cv deleted rest i) = Err DeletedObject.
Proof.
  destruct rest; [left | right]; reflexivity.
Qed.




(** ** No homography *)



(** ** A canvas without columns or rows *)

Lemma crop_window_within_panorama (pano_cols pano_rows h_dst : Z) (c : Corners) :
  let w := cropWindow pano_cols pano_rows h_dst c in
  0 <= crop_x_start w /\ crop_x_end w <= pano_cols
  /\ 0 <= crop_y_start w /\ crop_y_end w <= pano_rows.
Proof.
  intros w. subst w.
  rewrite crop_x_end_eq, crop_y_start_eq, crop_y_end_eq.
  unfold cropWindow. destruct (side_x_window pano_cols c) as [xs xe].
  cbn [crop_x_start]. lia.
Qed.

(** A canvas without columns or without rows is returned as it is. *)
Lemma cropPanorama_empty_canvas (pano : Mat) (h_dst : Z) (c : Corners) :
  cols pano <= 0 \/ rows pano <= 0 -> cropPanorama pano h_dst c = pano.
Proof.
  intros H. apply cropPanorama_degenerate.
  pose proof (crop_window_within_panorama (cols pano) (rows pano) h_dst c)
    as (Hxs & Hxe & Hys & Hye).
  unfold window_width, window_height. lia.
Qed.


Lemma blended_canvas_of_size (cv : CvLib) (dst_img src_img : Mat) (H : Mat3) :
  cols (blended_canvas_of cv dst_img src_img H)
    = width_pano (canvas_of cv dst_img src_img H)
  /\ rows (blended_canvas_of cv dst_img src_img H)
     = height_pano (canvas_of cv dst_img src_img H).
Proof.
  split; reflexivity.
Qed.




(** The mirror [H_mirror] gives a canvas of -4 columns: the allocation
    throws after the line of the canvas has been logged. *)
Example negative_canvas_throws :
  stitchTwoImages (Examples.cv_of Examples.four_matches Examples.H_mirror)
                  (Examples.grey 200) (Examples.grey 100) 1
  = ([LogProcessingPair 1; LogDetecting; LogKeypoints 4 4; LogMatching;
      LogGoodMatches 4; LogHomography; LogInliers 4 4;
      LogCanvas (-4) 2 side_right],
     Err CvException).
Proof.
  vm_compute. reflexivity.
Qed.

(** ** The driver *)


(** C9: with fewer than 2 uploaded images, [stitchWithOpenCV] shows the
    alert "Please upload at least 2 images" and returns at once: nothing is
    loaded or stitched, whatever the runtime, and the panorama, the
    processing flag, the progress and the status log are left as they
    were. *)
Theorem too_few_images_only_alerts
    (cv : CvLib) (load_mat : UploadedImage -> option Mat) (st : CreatorState) :
  (length (images st) < 2)%nat ->
  let st' := stitchWithOpenCV cv load_mat st in
  st' = alert st AlertAtLeastTwoImages
  /\ alerts st' = alerts st ++ [AlertAtLeastTwoImages]
  /\ panorama st' = panorama st
  /\ processing st' = processing st
  /\ progress st' = progress st
  /\ statusLog st' = statusLog st.
Proof.
  intros Hlen st'. subst st'. unfold stitchWithOpenCV.
  apply Nat.ltb_lt in Hlen. rewrite Hlen.
  repeat split.
Qed.

Lemma too_few_images_only_alerts_witness :
  alerts (stitchWithOpenCV
            (Examples.cv_of Examples.four_matches Examples.H_collapse)
            (fun _ => Some (Examples.grey 100)) Examples.one_image)
    = [AlertAtLeastTwoImages]
  /\ panorama (stitchWithOpenCV
                 (Examples.cv_of Examples.four_matches Examples.H_collapse)
                 (fun _ => Some (Examples.grey 100)) Examples.one_image)
     = None.
Proof.
  destruct (too_few_images_only_alerts
              (Examples.cv_of Examples.four_matches Examples.H_collapse)
              (fun _ => Some (Examples.grey 100)) Examples.one_image)
    as (_ & Ha & Hp & _).
  - vm_compute. lia.
  - split; [rewrite Ha | rewrite Hp]; reflexivity.
Defined.

(** * Further properties of the code *)

(** ** Failures of [stitchTwoImages] *)

(** X1: a pair fails with "Not enough features detected" exactly when one of
    the two images has fewer than 4 key points. *)
Theorem not_enough_features_iff
    (cv : CvLib) (dst_img src_img : Mat) (imageNum : Z) :
  snd (stitchTwoImages cv dst_img src_img imageNum) = Err NotEnoughFeatures
  <-> (length (keypoints_of cv dst_img) < 4)%nat
      \/ (length (keypoints_of cv src_img) < 4)%nat.
Proof.
  destruct (length (keypoints_of cv dst_img) <? 4)%nat eqn:Ed.
  - unfold stitchTwoImages. rewrite Ed.
    apply Nat.ltb_lt in Ed. cbn [orb snd]. split; [now left | reflexivity].
  - destruct (length (keypoints_of cv src_img) <? 4)%nat eqn:Es.
    + unfold stitchTwoImages. rewrite Ed, Es.
      apply Nat.ltb_lt in Es. cbn [orb snd]. split; [now right | reflexivity].
    + apply Nat.ltb_ge in Ed, Es.
      rewrite (stitchTwoImages_enough_features cv dst_img src_img imageNum
                 Ed Es).
      split; [|lia]. intros Hc. exfalso. revert Hc.
      destruct (length (good_matches_of (matches_of cv dst_img src_img)) <? 4)%nat;
        [discriminate|].
      destruct (fst (homography_of cv dst_img src_img)) as [H|];
        [|discriminate].
      intros Hc. apply stitch_from_homography_error in Hc. discriminate Hc.
Qed.

Lemma ratio_test_length (match_pair : list DMatch) :
  (length (ratio_test match_pair) <= 1)%nat.
Proof.
  unfold ratio_test.
  destruct match_pair as [|m [|n rest]]; cbn; try lia.
  destruct (ltb _ _); cbn; lia.
Qed.

Lemma good_matches_length (matches : list (list DMatch)) :
  (length (good_matches_of matches) <= length matches)%nat.
Proof.
  unfold good_matches_of.
  induction matches as [|p ps IH]; cbn; [lia|].
  rewrite length_app. pose proof (ratio_test_length p). lia.
Qed.

(** X2: the ratio test keeps at most one match per query; so when both
    images have their 4 key points and [knnMatch] answers for fewer than 4
    queries, the pair fails with "Not enough good matches". *)
Theorem fewer_than_four_queries_fail
    (cv : CvLib) (dst_img src_img : Mat) (imageNum : Z) :
  (4 <= length (keypoints_of cv dst_img))%nat ->
  (4 <= length (keypoints_of cv src_img))%nat ->
  (length (matches_of cv dst_img src_img) < 4)%nat ->
  (length (good_matches_of (matches_of cv dst_img src_img))
   <= length (matches_of cv dst_img src_img))%nat
  /\ snd (stitchTwoImages cv dst_img src_img imageNum)
     = Err NotEnoughGoodMatches.
Proof.
  intros Hd Hs Hm.
  pose proof (good_matches_length (matches_of cv dst_img src_img)) as Hle.
  split; [exact Hle|].
  rewrite (stitchTwoImages_enough_features cv dst_img src_img imageNum Hd Hs).
  assert (E : (length (good_matches_of (matches_of cv dst_img src_img)) <? 4)%nat
              = true) by (apply Nat.ltb_lt; lia).
  now rewrite E.
Qed.

Lemma fewer_than_four_queries_fail_witness :
  snd (stitchTwoImages
         (Examples.cv_of Examples.three_matches Examples.H_collapse)
         (Examples.grey 200) (Examples.grey 100) 1)
  = Err NotEnoughGoodMatches.
Proof.
  apply (fewer_than_four_queries_fail
           (Examples.cv_of Examples.three_matches Examples.H_collapse)
           (Examples.grey 200) (Examples.grey 100) 1);
    vm_compute; lia.
Defined.

(** ** The fixed image on the canvas *)

Lemma Z_le_of_Q_le_half (a b : Z) :
  (inject_Z a <= inject_Z b + (1 # 2))%Q -> a <= b.
Proof.
  intros H. destruct (Z_le_gt_dec a b) as [Hle | Hgt]; [exact Hle|].
  assert (Hb : b + 1 <= a) by lia.
  rewrite Zle_Qle, inject_Z_plus in Hb. change (inject_Z 1) with 1%Q in Hb.
  lra.
Qed.

Lemma Math_round_le (x : number) : (inject_Z (Math_round x) <= x + (1 # 2))%Q.
Proof. unfold Math_round. apply Qfloor_le. Qed.

Lemma Math_ceil_ge (x : number) : (x <= inject_Z (Math_ceil x))%Q.
Proof. unfold Math_ceil. apply Qle_ceiling. Qed.

Lemma Math_round_nonneg (x : number) : (0 <= x)%Q -> 0 <= Math_round x.
Proof.
  intros H. unfold Math_round.
  change 0 with (Qfloor 0). apply Qfloor_resp_le. lra.
Qed.

(** The extrema over all corners, against the corners of the fixed
    image. *)
Lemma canvas_extrema (w_dst h_dst : Z) (c : Corners) :
  let cnv := canvasGeometry w_dst h_dst c in
  (0 <= t_x cnv)%Q /\ (0 <= t_y cnv)%Q
  /\ (- px (corner0 c) <= t_x cnv)%Q
  /\ (inject_Z h_dst + t_y cnv <= inject_Z (height_pano cnv))%Q.
Proof.
  intros cnv. subst cnv. unfold canvasGeometry.
  cbn [t_x t_y height_pano].
  set (all := all_corners w_dst h_dst c).
  destruct (Math_min_is_min (px (corner0 c)) (map px (tl all))) as [_ Hminx].
  destruct (Math_min_is_min (py (corner0 c)) (map py (tl all))) as [_ Hminy].
  destruct (Math_max_is_max (py (corner0 c)) (map py (tl all))) as [_ Hmaxy].
  set (mx := Math_min (px (corner0 c)) (map px (tl all))) in *.
  set (my := Math_min (py (corner0 c)) (map py (tl all))) in *.
  set (My := Math_max (py (corner0 c)) (map py (tl all))) in *.
  assert (H0x : (mx <= 0)%Q).
  { apply Hminx. cbn. right. right. right. right. now left. }
  assert (H0y : (my <= 0)%Q).
  { apply Hminy. cbn. right. right. right. right. now left. }
  assert (Hcx : (mx <= px (corner0 c))%Q) by (apply Hminx; now left).
  assert (Hhy : (inject_Z h_dst <= My)%Q).
  { apply Hmaxy. cbn. right. right. right. right. right. now left. }
  pose proof (Math_ceil_ge (My - my)%Q) as Hc.
  repeat split; lra.
Qed.

Lemma canvas_dst_x_nonneg (w_dst h_dst : Z) (c : Corners) :
  0 <= dst_x (canvasGeometry w_dst h_dst c).
Proof.
  destruct (canvas_extrema w_dst h_dst c) as (Hx & _).
  unfold canvasGeometry in *. cbn [dst_x t_x] in *.
  destruct (ltb (px (corner0 c)) 0); [|lia].
  now apply Math_round_nonneg.
Qed.

Lemma canvas_dst_y_range (w_dst h_dst : Z) (c : Corners) :
  0 <= dst_y (canvasGeometry w_dst h_dst c)
  /\ dst_y (canvasGeometry w_dst h_dst c) + h_dst
     <= height_pano (canvasGeometry w_dst h_dst c).
Proof.
  destruct (canvas_extrema w_dst h_dst c) as (_ & Hy & _ & Hh).
  set (cnv := canvasGeometry w_dst h_dst c) in *.
  assert (Hr : (inject_Z (dst_y cnv) <= t_y cnv + (1 # 2))%Q).
  { subst cnv. unfold canvasGeometry. cbn [dst_y t_y]. apply Math_round_le. }
  split.
  - subst cnv. unfold canvasGeometry in *. cbn [dst_y t_y] in *.
    now apply Math_round_nonneg.
  - apply Z_le_of_Q_le_half. rewrite inject_Z_plus. lra.
Qed.

Lemma canvas_left_dst_x_range (w_dst h_dst : Z) (c : Corners) :
  ltb (px (corner0 c)) 0 = true ->
  side (canvasGeometry w_dst h_dst c) = side_left
  /\ w_dst <= width_pano (canvasGeometry w_dst h_dst c)
  /\ dst_x (canvasGeometry w_dst h_dst c) + w_dst
     <= width_pano (canvasGeometry w_dst h_dst c).
Proof.
  intros Hleft.
  destruct (canvas_extrema w_dst h_dst c) as (_ & _ & Hc & _).
  pose proof (proj1 (ltb_true_iff _ _) Hleft) as Hneg.
  set (cnv := canvasGeometry w_dst h_dst c) in *.
  assert (Hw : (inject_Z w_dst + t_x cnv <= inject_Z (width_pano cnv))%Q).
  { subst cnv. unfold canvasGeometry. cbn [width_pano t_x side].
    rewrite Hleft. apply Math_ceil_ge. }
  assert (Hr : (inject_Z (dst_x cnv) <= t_x cnv + (1 # 2))%Q).
  { subst cnv. unfold canvasGeometry. cbn [dst_x t_x side].
    rewrite Hleft. apply Math_round_le. }
  split; [|split].
  - subst cnv. unfold canvasGeometry. cbn [side]. now rewrite Hleft.
  - rewrite Zle_Qle. lra.
  - apply Z_le_of_Q_le_half. rewrite inject_Z_plus. lra.
Qed.

(** X3: the translation of the canvas and the offsets of the fixed image are
    never negative. *)
Theorem canvas_offsets_nonneg (w_dst h_dst : Z) (corners_src : Corners) :
  let cnv := canvasGeometry w_dst h_dst corners_src in
  (0 <= t_x cnv)%Q /\ (0 <= t_y cnv)%Q /\ 0 <= dst_x cnv /\ 0 <= dst_y cnv.
Proof.
  intros cnv.
  destruct (canvas_extrema w_dst h_dst corners_src) as (Hx & Hy & _ & _).
  repeat split; try assumption.
  - apply canvas_dst_x_nonneg.
  - apply canvas_dst_y_range.
Qed.

(** X4: the fixed image fits the canvas vertically: its last row, at
    [dst_y + h_dst], does not pass the height of the canvas. *)
Theorem fixed_image_fits_vertically (w_dst h_dst : Z) (corners_src : Corners) :
  let cnv := canvasGeometry w_dst h_dst corners_src in
  dst_y cnv + h_dst <= height_pano cnv.
Proof.
  intros cnv. apply canvas_dst_y_range.
Qed.

(** X5: on a left extension the canvas is at least as wide as the fixed
    image and the fixed image, placed at [dst_x], ends within the canvas. *)
Theorem left_extension_canvas_contains_fixed
    (w_dst h_dst : Z) (corners_src : Corners) :
  ltb (px (corner0 corners_src)) 0 = true ->
  let cnv := canvasGeometry w_dst h_dst corners_src in
  side cnv = side_left
  /\ w_dst <= width_pano cnv
  /\ dst_x cnv + w_dst <= width_pano cnv.
Proof.
  intros Hleft cnv. now apply canvas_left_dst_x_range.
Qed.

Lemma left_extension_canvas_contains_fixed_witness :
  4 <= width_pano (canvasGeometry 4 1 Examples.corners_small_left)
  /\ dst_x (canvasGeometry 4 1 Examples.corners_small_left) + 4
     <= width_pano (canvasGeometry 4 1 Examples.corners_small_left).
Proof.
  destruct (left_extension_canvas_contains_fixed
              4 1 Examples.corners_small_left) as (_ & Hw & Hx).
  - vm_compute. reflexivity.
  - split; [exact Hw | exact Hx].
Defined.

(** X6: on a left extension no pixel of the fixed image is lost: the pixel
    [(y, x)] of the fixed image is found, with its three colour channels, at
    [(y + dst_y, x + dst_x)] of [dst_resized]. *)
Theorem left_extension_keeps_fixed_pixels
    (dst_img : Mat) (corners_src : Corners) (y x : Z) :
  ltb (px (corner0 corners_src)) 0 = true ->
  0 <= y < rows dst_img ->
  0 <= x < cols dst_img ->
  let cnv := canvasGeometry (cols dst_img) (rows dst_img) corners_src in
  ucharPtr (place_fixed dst_img cnv) (y + dst_y cnv) (x + dst_x cnv)
  = map (fun c => to_uint8 (chan (ucharPtr dst_img y x) c)) channels.
Proof.
  intros Hleft Hy Hx cnv.
  pose proof (canvas_dst_x_nonneg (cols dst_img) (rows dst_img) corners_src)
    as Hx0.
  destruct (canvas_dst_y_range (cols dst_img) (rows dst_img) corners_src)
    as [Hy0 Hy1].
  destruct (canvas_left_dst_x_range (cols dst_img) (rows dst_img)
                                    corners_src Hleft) as (_ & _ & Hx1).
  fold cnv in Hx0, Hy0, Hy1, Hx1.
  unfold place_fixed.
  rewrite ucharPtr_build_mat by lia.
  replace (y + dst_y cnv - dst_y cnv) with y by lia.
  replace (x + dst_x cnv - dst_x cnv) with x by lia.
  assert (E : (0 <=? y) && (y <? rows dst_img) && (0 <=? x)
              && (x <? cols dst_img) = true).
  { rewrite !andb_true_iff, !Z.leb_le, !Z.ltb_lt. lia. }
  now rewrite E.
Qed.

Lemma left_extension_keeps_fixed_pixels_witness :
  ucharPtr (place_fixed Examples.pano_small
              (canvasGeometry 6 1 Examples.corners_small_left)) 0 5
  = [4; 4; 4].
Proof.
  change 5 with (3 + dst_x (canvasGeometry (cols Examples.pano_small)
                              (rows Examples.pano_small)
                              Examples.corners_small_left)).
  change 0 with (0 + dst_y (canvasGeometry (cols Examples.pano_small)
                              (rows Examples.pano_small)
                              Examples.corners_small_left)) at 1.
  change (canvasGeometry 6 1 Examples.corners_small_left)
    with (canvasGeometry (cols Examples.pano_small) (rows Examples.pano_small)
                         Examples.corners_small_left).
  rewrite left_extension_keeps_fixed_pixels.
  - vm_compute. reflexivity.
  - vm_compute. reflexivity.
  - split; [vm_compute; discriminate | vm_compute; reflexivity].
  - split; [vm_compute; discriminate | vm_compute; reflexivity].
Defined.

(** ** The translated homography *)

(** X7: composing the homography with the translation of the canvas keeps
    its determinant: [H_final] is singular exactly when [H] is. *)
Theorem translation_keeps_determinant (tx ty : number) (H : Mat3) :
  (det3 (gemm (translation tx ty) H) == det3 H)%Q.
Proof.
  unfold det3, gemm, translation. cbn. ring.
Qed.

(** ** Blending stays between its inputs *)

Lemma Math_round_between (lo hi : Z) (x : number) :
  (inject_Z lo <= x)%Q -> (x <= inject_Z hi)%Q ->
  lo <= Math_round x <= hi.
Proof.
  intros Hlo Hhi. split.
  - unfold Math_round. rewrite <- (Qfloor_Z lo).
    apply Qfloor_resp_le. lra.
  - apply Z_le_of_Q_le_half.
    pose proof (Math_round_le x). lra.
Qed.

Lemma chan_map_channels (f : nat -> Z) (c : nat) :
  (c < 3)%nat -> chan (map f channels) c = f c.
Proof.
  intros H. unfold chan, channels.
  destruct c as [|[|[|c]]]; cbn; try reflexivity. lia.
Qed.

Lemma inject_Z_min_max (a b : Z) :
  (inject_Z (Z.min a b) <= inject_Z a)%Q
  /\ (inject_Z (Z.min a b) <= inject_Z b)%Q
  /\ (inject_Z a <= inject_Z (Z.max a b))%Q
  /\ (inject_Z b <= inject_Z (Z.max a b))%Q.
Proof.
  rewrite <- !Zle_Qle. lia.
Qed.

(** A weighted sum with non-negative weights adding up to 1 lies between
    its two terms. *)
Lemma weighted_sum_between (lo hi a b d_dst d_src : number) :
  (lo <= a)%Q -> (lo <= b)%Q -> (a <= hi)%Q -> (b <= hi)%Q ->
  (0 <= d_dst)%Q -> (0 <= d_src)%Q -> (0 < d_dst + d_src)%Q ->
  (lo <= a * (d_dst / (d_dst + d_src)) + b * (d_src / (d_dst + d_src))
   /\ a * (d_dst / (d_dst + d_src)) + b * (d_src / (d_dst + d_src)) <= hi)%Q.
Proof.
  intros Hla Hlb Hah Hbh Hd Hs Ht.
  set (t := (d_dst + d_src)%Q) in *.
  assert (Hw1 : (0 <= d_dst / t)%Q).
  { apply Qle_shift_div_l; [exact Ht | lra]. }
  assert (Hw2 : (0 <= d_src / t)%Q).
  { apply Qle_shift_div_l; [exact Ht | lra]. }
  assert (Hsum : (d_dst / t + d_src / t == 1)%Q).
  { subst t. field. lra. }
  assert (H1 : (lo * (d_dst / t) <= a * (d_dst / t))%Q)
    by (apply Qmult_le_compat_r; assumption).
  assert (H2 : (lo * (d_src / t) <= b * (d_src / t))%Q)
    by (apply Qmult_le_compat_r; assumption).
  assert (H3 : (a * (d_dst / t) <= hi * (d_dst / t))%Q)
    by (apply Qmult_le_compat_r; assumption).
  assert (H4 : (b * (d_src / t) <= hi * (d_src / t))%Q)
    by (apply Qmult_le_compat_r; assumption).
  assert (E1 : (lo * (d_dst / t) + lo * (d_src / t) == lo)%Q).
  { rewrite <- Qmult_plus_distr_r, Hsum. ring. }
  assert (E2 : (hi * (d_dst / t) + hi * (d_src / t) == hi)%Q).
  { rewrite <- Qmult_plus_distr_r, Hsum. ring. }
  split; lra.
Qed.

(** X8: in the overlap the blend never leaves the range of its inputs: each
    colour channel of the result lies between the values of that channel in
    the fixed and in the moving pixel. *)
Theorem blend_in_overlap_between_inputs
    (dst_pix src_pix : Pixel) (has_dst has_src : bool)
    (d_dst d_src : number) (c : nat) :
  byte_pixel dst_pix -> byte_pixel src_pix ->
  (0 <= d_dst)%Q -> (0 <= d_src)%Q ->
  (c < 3)%nat ->
  Z.min (chan dst_pix c) (chan src_pix c)
  <= chan (blendPixel dst_pix src_pix has_dst has_src true d_dst d_src) c
  <= Z.max (chan dst_pix c) (chan src_pix c).
Proof.
  intros Hdst Hsrc Hd Hs Hc.
  rewrite blendPixel_in_overlap by assumption.
  destruct (inject_Z_min_max (chan dst_pix c) (chan src_pix c))
    as (Hm1 & Hm2 & HM1 & HM2).
  destruct (gtb (d_dst + d_src) (1 # 100)) eqn:Hgt;
    rewrite chan_map_channels by exact Hc;
    apply Math_round_between.
  - apply ltb_true_iff in Hgt.
    apply (weighted_sum_between _ (inject_Z (Z.max (chan dst_pix c)
                                                  (chan src_pix c))));
      try assumption; lra.
  - apply ltb_true_iff in Hgt.
    apply (weighted_sum_between (inject_Z (Z.min (chan dst_pix c)
                                                 (chan src_pix c))));
      try assumption; lra.
  - rewrite inject_Z_plus. apply Qle_shift_div_l; lra.
  - rewrite inject_Z_plus. apply Qle_shift_div_r; lra.
Qed.

Lemma blend_in_overlap_between_inputs_witness :
  100 <= chan (blendPixel [200; 200; 200] [100; 100; 100; 255]
                          true true true (1 # 1) (3 # 1)) 0 <= 200.
Proof.
  apply (blend_in_overlap_between_inputs
           [200; 200; 200] [100; 100; 100; 255] true true 1%Q (3 # 1)%Q 0%nat).
  - byte_pixel_of_literal.
  - byte_pixel_of_literal.
  - vm_compute. discriminate.
  - vm_compute. discriminate.
  - lia.
Defined.

(** ** The blend canvas is an 8-bit colour image *)

Lemma to_uint8_range (z : Z) : 0 <= to_uint8 z <= 255.
Proof.
  unfold to_uint8. pose proof (Z.mod_pos_bound z 256). lia.
Qed.

Lemma blendPixel_rgb (dst_pix src_pix : Pixel) (has_dst has_src in_overlap : bool)
    (d_dst d_src : number) :
  rgb_pixel (blendPixel dst_pix src_pix has_dst has_src in_overlap d_dst d_src).
Proof.
  unfold blendPixel, rgb_pixel, channels.
  destruct in_overlap; [destruct (gtb _ _)|destruct has_dst;
    [|destruct (has_src && _)]]; cbn [map length];
    (split; [reflexivity|]);
    repeat constructor; try apply to_uint8_range; lia.
Qed.

Lemma length_range (n : Z) : length (range n) = Z.to_nat n.
Proof. unfold range. now rewrite length_map, length_seq. Qed.

Lemma build_mat_wf (h w : Z) (f : Z -> Z -> Pixel) :
  0 <= h -> 0 <= w -> Mat_wf (build_mat h w f).
Proof.
  intros Hh Hw. unfold Mat_wf, build_mat. cbn [rows cols data].
  repeat split; try assumption.
  - now rewrite length_map, length_range.
  - apply Forall_forall. intros row Hrow.
    apply in_map_iff in Hrow. destruct Hrow as (y & <- & _).
    now rewrite length_map, length_range.
Qed.

Lemma blendCanvas_wf_rgb
    (cv : CvLib) (dst_resized src_warped : Mat) (h w : Z) :
  0 <= h -> 0 <= w ->
  Mat_wf (blendCanvas cv dst_resized src_warped h w)
  /\ Forall (Forall rgb_pixel) (data (blendCanvas cv dst_resized src_warped h w)).
Proof.
  intros Hh Hw. unfold blendCanvas.
  split; [now apply build_mat_wf|].
  unfold build_mat. cbn [data].
  apply Forall_forall. intros row Hrow.
  apply in_map_iff in Hrow. destruct Hrow as (y & <- & _).
  apply Forall_forall. intros p Hp.
  apply in_map_iff in Hp. destruct Hp as (x & <- & _).
  apply blendPixel_rgb.
Qed.

(** X9: for a canvas of non-negative size the blend is a well-formed 8-bit
    colour image, whatever the runtime answers: [h] rows of [w] pixels, each
    of three channels between 0 and 255. *)
Theorem blend_canvas_is_rgb_image
    (cv : CvLib) (dst_resized src_warped : Mat) (h w : Z) :
  0 <= h -> 0 <= w ->
  let pano := blendCanvas cv dst_resized src_warped h w in
  Mat_wf pano /\ rows pano = h /\ cols pano = w
  /\ Forall (Forall rgb_pixel) (data pano).
Proof.
  intros Hh Hw pano.
  destruct (blendCanvas_wf_rgb cv dst_resized src_warped h w Hh Hw)
    as [Hwf Hrgb].
  repeat split; try assumption; apply Hwf.
Qed.

Lemma blend_canvas_is_rgb_image_witness :
  Forall (Forall rgb_pixel)
         (data (blendCanvas (Examples.cv_of Examples.four_matches
                                            Examples.H_collapse)
                            (Examples.grey 200) (Examples.grey 100) 2 4)).
Proof.
  apply (blend_canvas_is_rgb_image
           (Examples.cv_of Examples.four_matches Examples.H_collapse)
           (Examples.grey 200) (Examples.grey 100) 2 4); lia.
Defined.

(** ** Size and content of the cropped panorama *)

Lemma crop_window_height_le (pano_cols pano_rows h_dst : Z) (c : Corners) :
  window_height (cropWindow pano_cols pano_rows h_dst c) <= h_dst.
Proof.
  unfold window_height. rewrite crop_y_start_eq, crop_y_end_eq. lia.
Qed.

(** The result of [cropPanorama]: the panorama itself, or the clone of a
    rectangle that lies within it. *)
Lemma cropPanorama_cases (pano : Mat) (h_dst : Z) (c : Corners) :
  let w := cropWindow (cols pano) (rows pano) h_dst c in
  cropPanorama pano h_dst c = pano
  \/ (0 < window_width w /\ 0 < window_height w
      /\ 0 <= crop_x_start w /\ crop_x_start w + window_width w <= cols pano
      /\ 0 <= crop_y_start w /\ crop_y_start w + window_height w <= rows pano
      /\ cropPanorama pano h_dst c
         = roi_clone pano (mkRect (crop_x_start w) (crop_y_start w)
                                  (window_width w) (window_height w))).
Proof.
  intros w. unfold cropPanorama. fold w.
  destruct ((window_width w <=? 0) || (window_height w <=? 0)) eqn:E.
  - now left.
  - right. apply orb_false_iff in E. destruct E as [Ew Eh].
    apply Z.leb_gt in Ew, Eh.
    pose proof (crop_window_within_panorama (cols pano) (rows pano) h_dst c)
      as (Hxs & Hxe & Hys & Hye).
    fold w in Hxs, Hxe, Hys, Hye.
    unfold window_width, window_height in *.
    repeat split; try lia.
Qed.

Lemma cropPanorama_le (pano : Mat) (h_dst : Z) (c : Corners) :
  cols (cropPanorama pano h_dst c) <= cols pano
  /\ rows (cropPanorama pano h_dst c) <= rows pano.
Proof.
  destruct (cropPanorama_cases pano h_dst c)
    as [E | (Hw & Hh & Hxs & Hxe & Hys & Hye & E)]; rewrite E.
  - split; lia.
  - cbn [roi_clone cols rows rect_width rect_height]. split; lia.
Qed.

(** X10: cropping never enlarges the panorama, and a panorama that is
    really cropped is at most as tall as the fixed image. *)
Theorem crop_never_enlarges (pano : Mat) (h_dst : Z) (corners : Corners) :
  cols (cropPanorama pano h_dst corners) <= cols pano
  /\ rows (cropPanorama pano h_dst corners) <= rows pano
  /\ (cropPanorama pano h_dst corners = pano
      \/ rows (cropPanorama pano h_dst corners) <= h_dst).
Proof.
  destruct (cropPanorama_le pano h_dst corners) as [Hc Hr].
  split; [exact Hc|]. split; [exact Hr|].
  destruct (cropPanorama_cases pano h_dst corners)
    as [E | (_ & _ & _ & _ & _ & _ & E)].
  - now left.
  - right. rewrite E. cbn [roi_clone rows rect_height].
    apply crop_window_height_le.
Qed.

Lemma Forall_firstn_keeps {A : Type} (P : A -> Prop) (n : nat) (l : list A) :
  Forall P l -> Forall P (firstn n l).
Proof.
  intros H. rewrite <- (firstn_skipn n l) in H.
  now apply Forall_app in H.
Qed.

Lemma Forall_skipn_keeps {A : Type} (P : A -> Prop) (n : nat) (l : list A) :
  Forall P l -> Forall P (skipn n l).
Proof.
  intros H. rewrite <- (firstn_skipn n l) in H.
  now apply Forall_app in H.
Qed.

Lemma cropPanorama_wf (pano : Mat) (h_dst : Z) (c : Corners) :
  Mat_wf pano -> Mat_wf (cropPanorama pano h_dst c).
Proof.
  intros Hwf.
  destruct (cropPanorama_cases pano h_dst c)
    as [E | (Hw & Hh & Hxs & Hxe & Hys & Hye & E)]; rewrite E;
    [exact Hwf|].
  destruct Hwf as (Hr & Hc & Hlen & Hrows).
  set (w := cropWindow (cols pano) (rows pano) h_dst c) in *.
  clearbody w. clear E.
  unfold Mat_wf, roi_clone.
  cbn [rows cols data rect_x rect_y rect_width rect_height].
  repeat split; try lia.
  - rewrite length_map, length_firstn, length_skipn. lia.
  - apply Forall_map.
    apply Forall_firstn_keeps, Forall_skipn_keeps.
    eapply Forall_impl; [|exact Hrows].
    intros row Hrow. cbn beta in *.
    rewrite length_firstn, length_skipn. lia.
Qed.

(** Cropping keeps a property that every pixel has. *)
Lemma cropPanorama_pixels (P : Pixel -> Prop) (pano : Mat) (h_dst : Z)
    (c : Corners) :
  Forall (Forall P) (data pano) ->
  Forall (Forall P) (data (cropPanorama pano h_dst c)).
Proof.
  intros H.
  destruct (cropPanorama_cases pano h_dst c)
    as [E | (_ & _ & _ & _ & _ & _ & E)]; rewrite E; [exact H|].
  unfold roi_clone. cbn [data rect_x rect_y rect_width rect_height].
  apply Forall_map.
  apply Forall_firstn_keeps, Forall_skipn_keeps.
  eapply Forall_impl; [|exact H].
  intros row Hrow. cbn beta. now apply Forall_firstn_keeps, Forall_skipn_keeps.
Qed.

(** X11: cropping a well-formed panorama gives a well-formed panorama. *)
Theorem crop_keeps_well_formed (pano : Mat) (h_dst : Z) (corners : Corners) :
  Mat_wf pano -> Mat_wf (cropPanorama pano h_dst corners).
Proof.
  apply cropPanorama_wf.
Qed.

Lemma crop_keeps_well_formed_witness :
  Mat_wf (cropPanorama Examples.pano_small 1 Examples.corners_small_left).
Proof.
  apply crop_keeps_well_formed.
  apply (build_mat_wf 1 6); lia.
Defined.

Lemma nth_roi_row {A : Type} (d : A) (w x0 i : nat) (row : list A) :
  (i < w)%nat -> nth i (firstn w (skipn x0 row)) d = nth (x0 + i) row d.
Proof.
  intros H. rewrite nth_firstn.
  assert (E : (i <? w)%nat = true) by now apply Nat.ltb_lt.
  rewrite E. apply nth_skipn.
Qed.

Lemma nth_map_roi {A : Type} (w x0 i : nat) (l : list (list A)) :
  nth i (map (fun row => firstn w (skipn x0 row)) l) []
  = firstn w (skipn x0 (nth i l [])).
Proof.
  rewrite <- (map_nth (fun row => firstn w (skipn x0 row)) l [] i).
  now rewrite skipn_nil, firstn_nil.
Qed.

(** X12: a cropped panorama shows the pixels of its window: the pixel
    [(y, x)] of the result is the pixel [(y + crop_y_start,
    x + crop_x_start)] of the panorama. *)
Theorem crop_shows_window_pixels
    (pano : Mat) (h_dst : Z) (corners : Corners) (y x : Z) :
  let w := cropWindow (cols pano) (rows pano) h_dst corners in
  0 < window_width w -> 0 < window_height w ->
  0 <= y < window_height w -> 0 <= x < window_width w ->
  ucharPtr (cropPanorama pano h_dst corners) y x
  = ucharPtr pano (y + crop_y_start w) (x + crop_x_start w).
Proof.
  intros w Hw Hh Hy Hx.
  assert (Ew : (window_width w <=? 0) = false) by (apply Z.leb_gt; lia).
  assert (Eh : (window_height w <=? 0) = false) by (apply Z.leb_gt; lia).
  unfold cropPanorama. fold w. rewrite Ew, Eh. cbn [orb].
  pose proof (crop_window_within_panorama (cols pano) (rows pano)
                                          h_dst corners)
    as (Hxs & _ & Hys & _).
  fold w in Hxs, Hys. clearbody w.
  unfold ucharPtr, roi_clone.
  cbn [data rect_x rect_y rect_width rect_height].
  rewrite nth_map_roi, !nth_roi_row by lia.
  f_equal; [lia|]. f_equal. lia.
Qed.

Lemma crop_shows_window_pixels_witness :
  ucharPtr (cropPanorama Examples.pano_small 1 Examples.corners_small_left) 0 1
  = [4; 4; 4].
Proof.
  rewrite crop_shows_window_pixels.
  - vm_compute. reflexivity.
  - vm_compute. reflexivity.
  - vm_compute. reflexivity.
  - split; [vm_compute; discriminate | vm_compute; reflexivity].
  - split; [vm_compute; discriminate | vm_compute; reflexivity].
Defined.

(** ** The fold over the images *)

(** X13: the loop of the driver is a fold that can be cut anywhere: stitching
    [xs ++ ys] onto a panorama is stitching [xs], then [ys] onto the result
    with the image numbers continuing; and once a pair has failed, no later
    image is processed. *)
Theorem stitch_loop_app
    (cv : CvLib) (panoramaResult : MatHandle) (xs ys : list Mat) (i : Z) :
  stitch_loop cv panoramaResult (xs ++ ys) i =
  match stitch_loop cv panoramaResult xs i with
  | (log1, Ok p) =>
      (log1 ++ fst (stitch_loop cv p ys (i + Z.of_nat (length xs))),
       snd (stitch_loop cv p ys (i + Z.of_nat (length xs))))
  | (log1, Err e) => (log1, Err e)
  end.
Proof.
  revert panoramaResult i.
  induction xs as [|m xs IH]; intros p i.
  - cbn [app stitch_loop length Z.of_nat]. rewrite Z.add_0_r.
    now destruct (stitch_loop cv p ys i).
  - cbn [app stitch_loop length].
    destruct p as [dst_img|]; [|reflexivity].
    destruct (stitchTwoImages cv dst_img m i) as [log [q | e]]; [|reflexivity].
    rewrite IH.
    replace (i + 1 + Z.of_nat (length xs))
      with (i + Z.of_nat (S (length xs))) by lia.
    destruct (stitch_loop cv q xs (i + 1)) as [log1 [p1 | e1]].
    + now rewrite app_assoc.
    + reflexivity.
Qed.

(** ** Outcomes of [stitchWithOpenCV] *)

Lemma load_all_none_iff (load_mat : UploadedImage -> option Mat)
    (imgs : list UploadedImage) :
  load_all load_mat imgs = None
  <-> exists img, In img imgs /\ load_mat img = None.
Proof.
  induction imgs as [|img rest IH]; cbn.
  - split; [discriminate | intros (img & [] & _)].
  - destruct (load_mat img) eqn:El.
    + destruct (load_all load_mat rest) as [ms|] eqn:Er.
      * split; [discriminate|].
        intros (img' & [<- | Hin] & Hl); [congruence|].
        pose proof (proj2 IH (ex_intro _ img' (conj Hin Hl))) as Hc.
        discriminate Hc.
      * split; [|reflexivity]. intros _.
        destruct (proj1 IH eq_refl) as (img' & Hin & Hl).
        exists img'. split; [now right | exact Hl].
    + split; [|reflexivity]. intros _. exists img. split; [now left | exact El].
Qed.

(** X14: with at least two images but the OpenCV runtime not yet loaded,
    the driver only shows the alert "OpenCV is still loading..." and leaves
    the state as it was. *)
Theorem opencv_not_ready_only_alerts
    (cv : CvLib) (load_mat : UploadedImage -> option Mat) (st : CreatorState) :
  (2 <= length (images st))%nat ->
  opencvReady st = false ->
  stitchWithOpenCV cv load_mat st = alert st AlertOpenCVLoading.
Proof.
  intros Hlen Hready. unfold stitchWithOpenCV.
  apply Nat.ltb_ge in Hlen. rewrite Hlen, Hready. reflexivity.
Qed.

Lemma opencv_not_ready_only_alerts_witness :
  stitchWithOpenCV (Examples.cv_of Examples.four_matches Examples.H_collapse)
                   Examples.load_grey (Examples.two_images false)
  = alert (Examples.two_images false) AlertOpenCVLoading.
Proof.
  apply opencv_not_ready_only_alerts.
  - vm_compute. lia.
  - reflexivity.
Defined.

(** X15: when one of the images cannot be loaded, nothing is stitched: the
    run ends in the [catch] block, the panorama is cleared, the processing
    flag is off again and the log holds the start line and the error. *)
Theorem load_failure_aborts_run
    (cv : CvLib) (load_mat : UploadedImage -> option Mat) (st : CreatorState)
    (img : UploadedImage) :
  (2 <= length (images st))%nat ->
  opencvReady st = true ->
  In img (images st) -> load_mat img = None ->
  let st' := stitchWithOpenCV cv load_mat st in
  panorama st' = None
  /\ processing st' = false
  /\ progress st' = ProgressError
  /\ statusLog st' = [LogStarted; LogError ImageLoadFailed]
  /\ alerts st' = alerts st ++ [AlertError ImageLoadFailed].
Proof.
  intros Hlen Hready Hin Hload st'. subst st'. unfold stitchWithOpenCV.
  apply Nat.ltb_ge in Hlen. rewrite Hlen, Hready. cbn [negb].
  assert (E : load_all load_mat (images st) = None).
  { apply load_all_none_iff. now exists img. }
  rewrite E. repeat split.
Qed.

Lemma load_failure_aborts_run_witness :
  statusLog (stitchWithOpenCV
               (Examples.cv_of Examples.four_matches Examples.H_collapse)
               Examples.load_but_second (Examples.two_images true))
  = [LogStarted; LogError ImageLoadFailed].
Proof.
  apply (load_failure_aborts_run
           (Examples.cv_of Examples.four_matches Examples.H_collapse)
           Examples.load_but_second (Examples.two_images true)
           (mkUploadedImage 2 2 [])).
  - vm_compute. lia.
  - reflexivity.
  - right. left. reflexivity.
  - reflexivity.
Defined.


(** A run that the crop ends: with the shear [H_shear] the crop window of
    the pair has no width, the pair resolves with its deleted canvas, and
    the run ends in the [catch] block. *)
Example run_with_deleted_canvas :
  snd (stitchTwoImages (Examples.cv_of Examples.four_matches Examples.H_shear)
                       (Examples.grey 200) (Examples.grey 100) 1) = Ok deleted
  /\ panorama (stitchWithOpenCV
                 (Examples.cv_of Examples.four_matches Examples.H_shear)
                 Examples.load_grey (Examples.two_images true)) = None
  /\ alerts (stitchWithOpenCV
               (Examples.cv_of Examples.four_matches Examples.H_shear)
               Examples.load_grey (Examples.two_images true))
     = [AlertError DeletedObject]
  /\ progress (stitchWithOpenCV
                 (Examples.cv_of Examples.four_matches Examples.H_shear)
                 Examples.load_grey (Examples.two_images true))
     = ProgressError.
Proof.
  repeat split; vm_compute; reflexivity.
Qed.


(** ** The list of uploaded images *)

Lemma filter_index_keep_all {A : Type} (index start : Z) (xs : list A) :
  index < start ->
  filter_index (fun i => negb (i =? index)) start xs = xs.
Proof.
  revert start. induction xs as [|x rest IH]; intros start Hlt;
    [reflexivity|].
  cbn [filter_index].
  assert (E : (start =? index) = false) by (apply Z.eqb_neq; lia).
  rewrite E. cbn [negb]. f_equal. apply IH. lia.
Qed.

Lemma filter_index_remove {A : Type} (index start : Z) (xs : list A) :
  start <= index ->
  filter_index (fun i => negb (i =? index)) start xs
  = firstn (Z.to_nat (index - start)) xs
    ++ skipn (S (Z.to_nat (index - start))) xs.
Proof.
  revert start. induction xs as [|x rest IH]; intros start Hle.
  - cbn. now rewrite firstn_nil.
  - cbn [filter_index].
    destruct (start =? index) eqn:E; cbn [negb].
    + apply Z.eqb_eq in E. subst start.
      rewrite Z.sub_diag. cbn [Z.to_nat firstn skipn app].
      apply filter_index_keep_all. lia.
    + apply Z.eqb_neq in E.
      rewrite IH by lia.
      replace (Z.to_nat (index - start))
        with (S (Z.to_nat (index - (start + 1)))) by lia.
      reflexivity.
Qed.

(** X17: [removeImage] drops exactly the image at [index] and keeps the
    others in order; an index outside the list leaves the list as it
    is. *)
Theorem removeImage_drops_one {A : Type} (images : list A) (index : Z) :
  removeImage images index =
  if (0 <=? index) && (index <? Z.of_nat (length images))
  then firstn (Z.to_nat index) images ++ skipn (S (Z.to_nat index)) images
  else images.
Proof.
  unfold removeImage.
  destruct (0 <=? index) eqn:E0; cbn [andb].
  - apply Z.leb_le in E0.
    rewrite filter_index_remove by exact E0. rewrite Z.sub_0_r.
    destruct (index <? Z.of_nat (length images)) eqn:E1; [reflexivity|].
    apply Z.ltb_ge in E1.
    rewrite firstn_all2 by lia. rewrite skipn_all2 by lia.
    apply app_nil_r.
  - apply Z.leb_gt in E0. apply filter_index_keep_all. lia.
Qed.

Lemma js_get_app {A : Type} (pre l : JsArray A) (k : nat) :
  js_get (pre ++ l) (Z.of_nat (length pre + k)) = nth k l None.
Proof.
  unfold js_get.
  assert (E : (Z.of_nat (length pre + k) <? 0) = false)
    by (apply Z.ltb_ge; lia).
  rewrite E, Nat2Z.id, app_nth2 by lia.
  f_equal. lia.
Qed.

Lemma js_set_app {A : Type} (pre l : JsArray A) (k : nat) (v : option A) :
  (k < length l)%nat ->
  js_set (pre ++ l) (Z.of_nat (length pre + k)) v
  = pre ++ firstn k l ++ v :: skipn (S k) l.
Proof.
  intros Hk. unfold js_set.
  assert (E0 : (Z.of_nat (length pre + k) <? 0) = false)
    by (apply Z.ltb_ge; lia).
  assert (E1 : (Z.of_nat (length pre + k)
                <? Z.of_nat (length (pre ++ l))) = true)
    by (apply Z.ltb_lt; rewrite length_app; lia).
  rewrite E0, E1, Nat2Z.id.
  rewrite firstn_app_2, <- app_assoc. f_equal. f_equal. f_equal.
  rewrite skipn_app.
  rewrite skipn_all2 by lia. cbn [app]. f_equal. lia.
Qed.

Lemma js_set_swap_down {A : Type} (pre post : JsArray A) (x y : option A) :
  js_set (js_set (pre ++ x :: y :: post) (Z.of_nat (length pre + 0)) y)
         (Z.of_nat (length pre + 1)) x
  = pre ++ y :: x :: post.
Proof.
  rewrite js_set_app by (cbn; lia). cbn [firstn skipn app].
  rewrite js_set_app by (cbn; lia). reflexivity.
Qed.

Lemma js_set_swap_up {A : Type} (pre post : JsArray A) (x y : option A) :
  js_set (js_set (pre ++ x :: y :: post) (Z.of_nat (length pre + 1)) x)
         (Z.of_nat (length pre + 0)) y
  = pre ++ y :: x :: post.
Proof.
  rewrite js_set_app by (cbn; lia). cbn [firstn skipn app].
  rewrite js_set_app by (cbn; lia). reflexivity.
Qed.

(** Moving the image at the end of [pre] down, or the next one up, swaps
    the two. *)
Lemma moveImage_down_app {A : Type} (pre post : JsArray A) (x y : option A) :
  moveImage (pre ++ x :: y :: post) (Z.of_nat (length pre)) down
  = pre ++ y :: x :: post.
Proof.
  unfold moveImage.
  assert (E : (0 <=? Z.of_nat (length pre) + 1)
              && (Z.of_nat (length pre) + 1
                  <? Z.of_nat (length (pre ++ x :: y :: post))) = true).
  { rewrite andb_true_iff, Z.leb_le, Z.ltb_lt, length_app. cbn [length]. lia. }
  rewrite E.
  replace (Z.of_nat (length pre) + 1) with (Z.of_nat (length pre + 1)) by lia.
  replace (Z.of_nat (length pre)) with (Z.of_nat (length pre + 0))
    by (f_equal; lia).
  rewrite !js_get_app. cbn [nth].
  apply js_set_swap_down.
Qed.

Lemma moveImage_up_app {A : Type} (pre post : JsArray A) (x y : option A) :
  moveImage (pre ++ x :: y :: post) (Z.of_nat (length pre) + 1) up
  = pre ++ y :: x :: post.
Proof.
  unfold moveImage.
  replace (Z.of_nat (length pre) + 1 - 1) with (Z.of_nat (length pre)) by lia.
  assert (E : (0 <=? Z.of_nat (length pre))
              && (Z.of_nat (length pre)
                  <? Z.of_nat (length (pre ++ x :: y :: post))) = true).
  { rewrite andb_true_iff, Z.leb_le, Z.ltb_lt, length_app. cbn [length]. lia. }
  rewrite E.
  replace (Z.of_nat (length pre) + 1) with (Z.of_nat (length pre + 1)) by lia.
  replace (Z.of_nat (length pre)) with (Z.of_nat (length pre + 0))
    by (f_equal; lia).
  rewrite !js_get_app. cbn [nth].
  apply js_set_swap_up.
Qed.

Lemma split_two_at {A : Type} (l : list A) (i : Z) :
  0 <= i -> i + 1 < Z.of_nat (length l) ->
  exists pre x y post,
    l = pre ++ x :: y :: post /\ Z.of_nat (length pre) = i.
Proof.
  intros H0 H1.
  exists (firstn (Z.to_nat i) l).
  destruct (skipn (Z.to_nat i) l) as [|x [|y post]] eqn:E.
  - apply (f_equal (@length A)) in E. rewrite length_skipn in E. cbn in E. lia.
  - apply (f_equal (@length A)) in E. rewrite length_skipn in E. cbn in E. lia.
  - exists x, y, post. split.
    + rewrite <- E. symmetry. apply firstn_skipn.
    + rewrite length_firstn. lia.
Qed.

(** X18: [moveImage] exchanges two neighbours and leaves every other image
    in place: moving the image at [index] down, or the image at
    [index + 1] up, turns [pre ++ x :: y :: post] into
    [pre ++ y :: x :: post], [pre] being the first [index] images. *)
Theorem moveImage_swaps_neighbours {A : Type} (images : JsArray A) (index : Z) :
  0 <= index -> index + 1 < Z.of_nat (length images) ->
  exists pre x y post,
    images = pre ++ x :: y :: post
    /\ Z.of_nat (length pre) = index
    /\ moveImage images index down = pre ++ y :: x :: post
    /\ moveImage images (index + 1) up = pre ++ y :: x :: post.
Proof.
  intros H0 H1.
  destruct (split_two_at images index H0 H1) as (pre & x & y & post & E & Hl).
  exists pre, x, y, post. subst images index.
  repeat split.
  - apply moveImage_down_app.
  - apply moveImage_up_app.
Qed.

Lemma moveImage_swaps_neighbours_witness :
  exists pre x y post,
    [Some 1; Some 2; Some 3] = pre ++ x :: y :: post
    /\ moveImage [Some 1; Some 2; Some 3] 1 down = pre ++ y :: x :: post.
Proof.
  destruct (moveImage_swaps_neighbours [Some 1; Some 2; Some 3] 1)
    as (pre & x & y & post & E & Hl & Hd & _).
  - lia.
  - cbn. lia.
  - exists pre, x, y, post. split; [exact E | exact Hd].
Defined.

(** X19: for an index inside the list, [moveImage] only reorders: the
    result is a permutation of the list, of the same length, whatever the
    direction, also at the two ends of the list where nothing moves. *)
Theorem moveImage_is_permutation
    {A : Type} (images : JsArray A) (index : Z) (direction : Direction) :
  0 <= index < Z.of_nat (length images) ->
  Permutation (moveImage images index direction) images
  /\ length (moveImage images index direction) = length images.
Proof.
  intros [H0 H1].
  assert (Hswap : forall pre post (x y : option A),
             Permutation (pre ++ y :: x :: post) (pre ++ x :: y :: post)
             /\ length (pre ++ y :: x :: post) = length (pre ++ x :: y :: post)).
  { intros pre post x y. split.
    - apply Permutation_app_head, perm_swap.
    - rewrite !length_app. reflexivity. }
  destruct direction.
  - destruct (Z_lt_le_dec (index - 1) 0) as [Hfirst | Hprev].
    + unfold moveImage.
      assert (E : (0 <=? index - 1) = false) by (apply Z.leb_gt; lia).
      rewrite E. cbn [andb]. split; [apply Permutation_refl | reflexivity].
    + destruct (split_two_at images (index - 1)) as (pre & x & y & post & E & Hl);
        [lia | lia |].
      subst images. replace index with (Z.of_nat (length pre) + 1) by lia.
      rewrite moveImage_up_app. apply Hswap.
  - destruct (Z_lt_le_dec (index + 1) (Z.of_nat (length images)))
      as [Hnext | Hlast].
    + destruct (split_two_at images index) as (pre & x & y & post & E & Hl);
        [lia | lia |].
      subst images index. rewrite moveImage_down_app. apply Hswap.
    + unfold moveImage.
      assert (E : (index + 1 <? Z.of_nat (length images)) = false)
        by (apply Z.ltb_ge; lia).
      rewrite E, andb_false_r. split; [apply Permutation_refl | reflexivity].
Qed.

Lemma moveImage_is_permutation_witness :
  Permutation (moveImage [Some 1; Some 2; Some 3] 2 up)
              [Some 1; Some 2; Some 3].
Proof.
  apply (moveImage_is_permutation [Some 1; Some 2; Some 3] 2 up).
  cbn. lia.
Defined.

(** X20: moving an image down and then up again, or up and then down again,
    gives the list back. *)
Theorem moveImage_round_trip {A : Type} (images : JsArray A) (index : Z) :
  0 <= index -> index + 1 < Z.of_nat (length images) ->
  moveImage (moveImage images index down) (index + 1) up = images
  /\ moveImage (moveImage images (index + 1) up) index down = images.
Proof.
  intros H0 H1.
  destruct (split_two_at images index H0 H1) as (pre & x & y & post & E & Hl).
  subst images index.
  rewrite moveImage_down_app, moveImage_up_app.
  rewrite moveImage_up_app, moveImage_down_app.
  split; reflexivity.
Qed.

Lemma moveImage_round_trip_witness :
  moveImage (moveImage [Some 1; Some 2; Some 3] 0 down) 1 up
  = [Some 1; Some 2; Some 3].
Proof.
  apply (moveImage_round_trip [Some 1; Some 2; Some 3] 0); cbn; lia.
Defined.

(** ** The tour tree *)

Import Tour.

(** Induction on a tree, with the property for all children at hand. *)
Lemma ImageNodeData_induction (P : ImageNodeData -> Prop) :
  (forall id imageUrl label children hotspots,
      Forall P children -> P (mkNode id imageUrl label children hotspots)) ->
  forall n, P n.
Proof.
  intros H. fix IH 1. intros [id imageUrl label children hotspots].
  apply H. induction children as [|c cs IHcs]; constructor.
  - apply IH.
  - exact IHcs.
Qed.

Lemma first_found_none {A B : Type} (f : A -> option B) (xs : list A) :
  first_found f xs = None <-> forall x, In x xs -> f x = None.
Proof.
  induction xs as [|x rest IH]; cbn.
  - split; [intros _ x [] | reflexivity].
  - destruct (f x) eqn:E.
    + split; [discriminate|]. intros H. specialize (H x (or_introl eq_refl)).
      congruence.
    + rewrite IH. split.
      * intros H y [<- | Hy]; [exact E | now apply H].
      * intros H y Hy. apply H. now right.
Qed.

Lemma first_found_some {A B : Type} (f : A -> option B) (xs : list A) (b : B) :
  first_found f xs = Some b -> exists x, In x xs /\ f x = Some b.
Proof.
  induction xs as [|x rest IH]; cbn; [discriminate|].
  destruct (f x) eqn:E.
  - intros [= <-]. exists x. split; [now left | exact E].
  - intros H. destruct (IH H) as (y & Hy & Hf). exists y.
    split; [now right | exact Hf].
Qed.

Lemma first_found_map {A B C : Type} (f : B -> option C) (g : A -> B)
    (xs : list A) :
  first_found f (map g xs) = first_found (fun x => f (g x)) xs.
Proof.
  induction xs as [|x rest IH]; cbn; [reflexivity|].
  now rewrite IH.
Qed.

Lemma first_found_ext {A B : Type} (f g : A -> option B) (xs : list A) :
  Forall (fun x => f x = g x) xs -> first_found f xs = first_found g xs.
Proof.
  induction 1 as [|x rest Hx _ IH]; cbn; [reflexivity|].
  now rewrite Hx, IH.
Qed.

Lemma findNode_none_iff (n : ImageNodeData) (q : string) :
  findNode n q = None <-> ~ In q (node_ids n).
Proof.
  induction n as [id imageUrl label children hotspots IH]
    using ImageNodeData_induction.
  cbn [findNode node_ids].
  destruct (String.eqb id q) eqn:E.
  - apply String.eqb_eq in E. subst q.
    split; [discriminate|]. intros H. exfalso. apply H. now left.
  - apply String.eqb_neq in E. rewrite first_found_none.
    rewrite Forall_forall in IH. split.
    + intros H [Hq | Hq]; [now apply E|].
      apply in_flat_map in Hq. destruct Hq as (c & Hc & Hq).
      now apply (proj1 (IH c Hc) (H c Hc)).
    + intros H c Hc. apply (IH c Hc). intros Hq. apply H. right.
      apply in_flat_map. now exists c.
Qed.

Lemma findNode_some (n found : ImageNodeData) (q : string) :
  findNode n q = Some found -> node_id found = q /\ In found (nodes n).
Proof.
  revert found.
  induction n as [id imageUrl label children hotspots IH]
    using ImageNodeData_induction.
  intros found. cbn [findNode nodes].
  destruct (String.eqb id q) eqn:E.
  - apply String.eqb_eq in E. intros [= <-]. split; [exact E | now left].
  - intros H. apply first_found_some in H. destruct H as (c & Hc & Hf).
    rewrite Forall_forall in IH.
    destruct (IH c Hc found Hf) as [Hid Hin].
    split; [exact Hid|]. right. apply in_flat_map. now exists c.
Qed.

(** X21: [findNode] answers a node of the tree that carries the id asked
    for, and answers [null] exactly when no node of the tree has that
    id. *)
Theorem findNode_finds_the_id (n : ImageNodeData) (q : string) :
  (forall found, findNode n q = Some found ->
                 node_id found = q /\ In found (nodes n))
  /\ (findNode n q = None <-> ~ In q (node_ids n)).
Proof.
  split.
  - intros found. apply findNode_some.
  - apply findNode_none_iff.
Qed.

Lemma addChildToNode_absent (n : ImageNodeData) (p : string)
    (c : ImageNodeData) :
  ~ In p (node_ids n) -> addChildToNode n p c = n.
Proof.
  induction n as [id imageUrl label children hotspots IH]
    using ImageNodeData_induction.
  cbn [node_ids addChildToNode]. intros H.
  destruct (String.eqb id p) eqn:E.
  - apply String.eqb_eq in E. exfalso. apply H. now left.
  - f_equal. rewrite <- (map_id children) at 2.
    apply map_ext_in. intros child Hchild.
    rewrite Forall_forall in IH. apply (IH child Hchild).
    intros Hp. apply H. right. apply in_flat_map. now exists child.
Qed.

Lemma addHotspotToNode_absent (n : ImageNodeData) (p : string) (h : Hotspot) :
  ~ In p (node_ids n) -> addHotspotToNode n p h = n.
Proof.
  induction n as [id imageUrl label children hotspots IH]
    using ImageNodeData_induction.
  cbn [node_ids addHotspotToNode]. intros H.
  destruct (String.eqb id p) eqn:E.
  - apply String.eqb_eq in E. exfalso. apply H. now left.
  - f_equal. rewrite <- (map_id children) at 2.
    apply map_ext_in. intros child Hchild.
    rewrite Forall_forall in IH. apply (IH child Hchild).
    intros Hp. apply H. right. apply in_flat_map. now exists child.
Qed.

(** X22: adding a child or a hotspot under an id that no node of the tree
    has changes nothing. *)
Theorem absent_id_changes_nothing
    (n : ImageNodeData) (p : string) (c : ImageNodeData) (h : Hotspot) :
  ~ In p (node_ids n) ->
  addChildToNode n p c = n /\ addHotspotToNode n p h = n.
Proof.
  intros H. split.
  - now apply addChildToNode_absent.
  - now apply addHotspotToNode_absent.
Qed.

Lemma findNode_addHotspotToNode (n : ImageNodeData) (p : string)
    (h : Hotspot) (found : ImageNodeData) :
  findNode n p = Some found ->
  findNode (addHotspotToNode n p h) p
  = Some (mkNode (node_id found) (node_imageUrl found) (node_label found)
                 (node_children found) (node_hotspots found ++ [h])).
Proof.
  revert found.
  induction n as [id imageUrl label children hotspots IH]
    using ImageNodeData_induction.
  intros found. cbn [findNode addHotspotToNode].
  destruct (String.eqb id p) eqn:E.
  - intros [= <-]. cbn [findNode]. now rewrite E.
  - cbn [findNode]. rewrite E, first_found_map.
    induction IH as [|ch rest Hch _ IHrest]; cbn [first_found];
      [discriminate|].
    destruct (findNode ch p) as [f|] eqn:Ef.
    + intros [= <-]. now rewrite (Hch f eq_refl).
    + rewrite addHotspotToNode_absent by (now apply findNode_none_iff).
      rewrite Ef. exact IHrest.
Qed.

(** X23: after [addChildToNode] the node found under the parent id is the
    node found before, with the new child appended as its last child. *)
Theorem added_child_is_found_under_parent
    (n : ImageNodeData) (parentId : string) (newChild found : ImageNodeData) :
  findNode n parentId = Some found ->
  findNode (addChildToNode n parentId newChild) parentId
  = Some (mkNode (node_id found) (node_imageUrl found) (node_label found)
                 (node_children found ++ [newChild]) (node_hotspots found)).
Proof.
  revert found.
  induction n as [id imageUrl label children hotspots IH]
    using ImageNodeData_induction.
  intros found. cbn [findNode addChildToNode].
  destruct (String.eqb id parentId) eqn:E.
  - intros [= <-]. cbn [findNode]. now rewrite E.
  - cbn [findNode]. rewrite E, first_found_map.
    induction IH as [|ch rest Hch _ IHrest]; cbn [first_found];
      [discriminate|].
    destruct (findNode ch parentId) as [f|] eqn:Ef.
    + intros [= <-]. now rewrite (Hch f eq_refl).
    + rewrite addChildToNode_absent by (now apply findNode_none_iff).
      rewrite Ef. exact IHrest.
Qed.


(** X24: after [addHotspotToNode] the node found under the target id is the
    node found before, with the new hotspot appended to its hotspots. *)
Theorem added_hotspot_is_found_on_target
    (n : ImageNodeData) (targetNodeId : string) (hotspot : Hotspot)
    (found : ImageNodeData) :
  findNode n targetNodeId = Some found ->
  findNode (addHotspotToNode n targetNodeId hotspot) targetNodeId
  = Some (mkNode (node_id found) (node_imageUrl found) (node_label found)
                 (node_children found) (node_hotspots found ++ [hotspot])).
Proof.
  apply findNode_addHotspotToNode.
Qed.

Lemma flat_map_map_ext {A B : Type} (f : A -> list B) (g : A -> A)
    (xs : list A) :
  Forall (fun x => f (g x) = f x) xs -> flat_map f (map g xs) = flat_map f xs.
Proof.
  induction 1 as [|x rest Hx _ IH]; cbn; [reflexivity|].
  now rewrite Hx, IH.
Qed.

(** X25: [addHotspotToNode] keeps the nodes of the tree where they are: the
    ids of the tree, in order, are the same before and after, so every
    link to a node stays valid. *)
Theorem addHotspotToNode_keeps_ids
    (n : ImageNodeData) (targetNodeId : string) (hotspot : Hotspot) :
  node_ids (addHotspotToNode n targetNodeId hotspot) = node_ids n.
Proof.
  induction n as [id imageUrl label children hotspots IH]
    using ImageNodeData_induction.
  cbn [addHotspotToNode].
  destruct (String.eqb id targetNodeId); cbn [node_ids]; [reflexivity|].
  f_equal. now apply flat_map_map_ext.
Qed.

(** X26: after [addChildToNode] the ids of the tree are the ids it had,
    together with the ids of the new child when the parent id was in the
    tree: no node is lost and nothing is added under a parent that does not
    exist. *)
Theorem addChildToNode_ids
    (n : ImageNodeData) (parentId : string) (newChild : ImageNodeData)
    (q : string) :
  In q (node_ids (addChildToNode n parentId newChild))
  <-> In q (node_ids n)
      \/ (In parentId (node_ids n) /\ In q (node_ids newChild)).
Proof.
  induction n as [id imageUrl label children hotspots IH]
    using ImageNodeData_induction.
  cbn [addChildToNode].
  destruct (String.eqb id parentId) eqn:E.
  - apply String.eqb_eq in E. subst parentId.
    cbn [node_ids]. rewrite flat_map_app. cbn [flat_map In].
    rewrite in_app_iff, app_nil_r. tauto.
  - apply String.eqb_neq in E. cbn [node_ids In].
    rewrite Forall_forall in IH. rewrite !in_flat_map. split.
    + intros [Hq | (c' & Hc' & Hq)]; [left; now left|].
      apply in_map_iff in Hc'. destruct Hc' as (c & <- & Hc).
      apply (IH c Hc) in Hq. destruct Hq as [Hq | [Hp Hq]].
      * left. right. now exists c.
      * right. split; [|exact Hq]. right. now exists c.
    + intros [[Hq | (c & Hc & Hq)] | [[Hp | Hp] Hq]].
      * now left.
      * right. exists (addChildToNode c parentId newChild).
        split; [apply in_map_iff; now exists c|]. apply (IH c Hc). now left.
      * now contradiction E.
      * destruct Hp as (c & Hc & Hp).
        right. exists (addChildToNode c parentId newChild).
        split; [apply in_map_iff; now exists c|]. apply (IH c Hc). now right.
Qed.

Lemma absent_id_changes_nothing_witness :
  addChildToNode TourExamples.hall (node_id TourExamples.pond)
                 TourExamples.shed = TourExamples.hall.
Proof.
  apply (absent_id_changes_nothing TourExamples.hall
           (node_id TourExamples.pond) TourExamples.shed
           TourExamples.to_shed).
  cbn. intros [H | [H | [H | [H | []]]]]; discriminate H.
Defined.

Lemma added_child_is_found_under_parent_witness :
  option_map node_children
    (findNode (addChildToNode TourExamples.hall (node_id TourExamples.garden)
                              TourExamples.pond)
              (node_id TourExamples.garden))
  = Some [TourExamples.shed; TourExamples.pond].
Proof.
  rewrite (added_child_is_found_under_parent
             TourExamples.hall (node_id TourExamples.garden)
             TourExamples.pond TourExamples.garden).
  - reflexivity.
  - reflexivity.
Defined.

Lemma added_hotspot_is_found_on_target_witness :
  option_map node_hotspots
    (findNode (addHotspotToNode TourExamples.hall
                                (node_id TourExamples.garden)
                                TourExamples.to_shed)
              (node_id TourExamples.garden))
  = Some [TourExamples.to_shed].
Proof.
  rewrite (added_hotspot_is_found_on_target
             TourExamples.hall (node_id TourExamples.garden)
             TourExamples.to_shed TourExamples.garden).
  - reflexivity.
  - reflexivity.
Defined.

(** X27: saving a hotspot while a node of the tree is shown puts the hotspot
    at the end of the hotspots of that node, keeps every node of the tree,
    and hands the viewer the updated node, which is the node the new tree
    holds under that id.  The hotspot is a link exactly when a non-empty
    target id is given. *)
Theorem save_hotspot_updates_tree_and_viewer
    (st : TreeState) (root viewing found : ImageNodeData) (newId : string)
    (position : number * number * number) (label : string)
    (targetNodeId : option string) :
  rootNode st = Some root ->
  viewingImage st = Some viewing ->
  findNode root (node_id viewing) = Some found ->
  let st' := handleSaveHotspot st newId position label targetNodeId in
  let hotspot :=
    mkHotspot newId position (if truthy targetNodeId then link else info)
              label targetNodeId in
  let updated :=
    mkNode (node_id found) (node_imageUrl found) (node_label found)
           (node_children found) (node_hotspots found ++ [hotspot]) in
  exists root',
    rootNode st' = Some root'
    /\ viewingImage st' = Some updated
    /\ findNode root' (node_id viewing) = Some updated
    /\ node_ids root' = node_ids root.
Proof.
  intros Hroot Hview Hfound st' hotspot updated.
  exists (addHotspotToNode root (node_id viewing) hotspot).
  subst st'. unfold handleSaveHotspot. rewrite Hview, Hroot.
  fold hotspot.
  rewrite (findNode_addHotspotToNode root (node_id viewing) hotspot found Hfound).
  fold updated. cbn [rootNode viewingImage].
  repeat split. apply addHotspotToNode_keeps_ids.
Qed.

Lemma save_hotspot_updates_tree_and_viewer_witness :
  option_map node_hotspots
    (viewingImage
       (handleSaveHotspot TourExamples.viewing_garden
          (hs_id TourExamples.to_shed) (hs_position TourExamples.to_shed)
          (hs_label TourExamples.to_shed)
          (hs_targetNodeId TourExamples.to_shed)))
  = Some [TourExamples.to_shed].
Proof.
  destruct (save_hotspot_updates_tree_and_viewer
              TourExamples.viewing_garden TourExamples.hall
              TourExamples.garden TourExamples.garden
              (hs_id TourExamples.to_shed) (hs_position TourExamples.to_shed)
              (hs_label TourExamples.to_shed)
              (hs_targetNodeId TourExamples.to_shed))
    as (root' & _ & Hv & _).
  - reflexivity.
  - reflexivity.
  - reflexivity.
  - rewrite Hv. reflexivity.
Defined.

(** X28: navigation never changes the tree and only ever shows a node of
    the tree that carries the target id; a target id that no node has leaves
    the viewer on the picture it shows. *)
Theorem navigate_shows_target_or_stays (st : TreeState) (targetNodeId : string) :
  let st' := handleNavigate st targetNodeId in
  rootNode st' = rootNode st
  /\ (viewingImage st' = viewingImage st
      \/ exists root n,
           rootNode st = Some root /\ viewingImage st' = Some n
           /\ node_id n = targetNodeId /\ In n (nodes root))
  /\ (forall root, rootNode st = Some root ->
                   ~ In targetNodeId (node_ids root) -> st' = st).
Proof.
  intros st'. subst st'. unfold handleNavigate.
  destruct (rootNode st) as [root|] eqn:Hroot.
  - destruct (findNode root targetNodeId) as [n|] eqn:Hfind.
    + cbn [rootNode viewingImage]. split; [reflexivity|]. split.
      * right. exists root, n.
        destruct (findNode_some root n targetNodeId Hfind) as [Hid Hin].
        split; [reflexivity|]. split; [reflexivity|].
        split; assumption.
      * intros root0 [= <-] Habs.
        apply findNode_none_iff in Habs. congruence.
    + rewrite Hroot. split; [reflexivity|].
      split; [now left | reflexivity].
  - rewrite Hroot. split; [reflexivity|]. split; [now left|]. discriminate.
Qed.

Lemma findParent_some (n : ImageNodeData) (q : string)
    (parent : option ImageNodeData) (p : ImageNodeData) :
  findParent n q parent = Some p ->
  (parent = Some p /\ node_id n = q)
  \/ (In p (nodes n)
      /\ exists c, In c (node_children p) /\ node_id c = q).
Proof.
  revert parent.
  induction n as [id imageUrl label children hotspots IH]
    using ImageNodeData_induction.
  intros parent. cbn [findParent].
  destruct (String.eqb id q) eqn:E.
  - apply String.eqb_eq in E. intros ->. now left.
  - intros H. right. apply first_found_some in H.
    destruct H as (c & Hc & Hf).
    rewrite Forall_forall in IH.
    destruct (IH c Hc _ Hf) as [[[= <-] Hid] | [Hin Hex]].
    + split; [now left|]. exists c. split; [exact Hc | exact Hid].
    + split; [|exact Hex]. cbn [nodes]. right.
      apply in_flat_map. now exists c.
Qed.

(** X29: the parent that the viewer finds for an id is a node of the tree
    one of whose children carries that id; the root has no parent. *)
Theorem findParent_is_a_parent (root : ImageNodeData) (targetId : string) :
  (forall p, findParent root targetId None = Some p ->
             In p (nodes root)
             /\ exists c, In c (node_children p) /\ node_id c = targetId)
  /\ findParent root (node_id root) None = None.
Proof.
  split.
  - intros p H.
    destruct (findParent_some root targetId None p H) as [[Hn _] | Hp];
      [discriminate Hn | exact Hp].
  - destruct root as [id imageUrl label children hotspots].
    cbn [findParent node_id]. now rewrite String.eqb_refl.
Qed.

Lemma blendCanvas_size (cv : CvLib) (dst_resized src_warped : Mat) (h w : Z) :
  cols (blendCanvas cv dst_resized src_warped h w) = w
  /\ rows (blendCanvas cv dst_resized src_warped h w) = h.
Proof. split; reflexivity. Qed.

(** When the crop does not answer its input, it answers a clone of a
    window that has a width and a height. *)
Lemma cropPanorama_clone (pano : Mat) (h_dst : Z) (c : Corners) :
  crop_returns_input pano h_dst c = false ->
  let w := cropWindow (cols pano) (rows pano) h_dst c in
  0 < window_width w /\ 0 < window_height w
  /\ cropPanorama pano h_dst c
     = roi_clone pano (mkRect (crop_x_start w) (crop_y_start w)
                              (window_width w) (window_height w)).
Proof.
  intros E w. unfold crop_returns_input in E. unfold cropPanorama.
  cbv zeta in E |- *. fold w in E |- *.
  rewrite E. apply orb_false_iff in E. destruct E as [Ew Eh].
  apply Z.leb_gt in Ew, Eh. repeat split; assumption.
Qed.

Lemma stitch_from_homography_live
    (cv : CvLib) (dst_img src_img : Mat) (imageNum : Z) (H : Mat3)
    (pano : Mat) :
  snd (stitch_from_homography cv dst_img src_img imageNum H) = Ok (live pano) ->
  let cnv := canvas_of cv dst_img src_img H in
  let blend := blended_canvas_of cv dst_img src_img H in
  0 <= width_pano cnv /\ 0 <= height_pano cnv
  /\ crop_returns_input blend (rows dst_img) (corners_src_of cv src_img H)
     = false
  /\ pano = cropPanorama blend (rows dst_img) (corners_src_of cv src_img H).
Proof.
  intros Hok cnv blend. rewrite stitch_from_homography_result in Hok.
  fold cnv blend in Hok.
  destruct ((height_pano cnv <? 0) || (width_pano cnv <? 0)) eqn:Eneg;
    [discriminate Hok|].
  apply orb_false_iff in Eneg. destruct Eneg as [Eh Ew].
  apply Z.ltb_ge in Eh, Ew.
  destruct (crop_returns_input blend (rows dst_img)
                               (corners_src_of cv src_img H)) eqn:Ecrop;
    [discriminate Hok|].
  apply Ok_inj in Hok.
  repeat split; try assumption. now injection Hok as <-.
Qed.

Lemma stitch_from_homography_rgb
    (cv : CvLib) (dst_img src_img : Mat) (imageNum : Z) (H : Mat3)
    (pano : Mat) :
  snd (stitch_from_homography cv dst_img src_img imageNum H) = Ok (live pano) ->
  let cnv := canvas_of cv dst_img src_img H in
  Mat_wf pano
  /\ Forall (Forall rgb_pixel) (data pano)
  /\ 0 < cols pano <= width_pano cnv
  /\ 0 < rows pano <= height_pano cnv.
Proof.
  intros Hok cnv.
  destruct (stitch_from_homography_live cv dst_img src_img imageNum H pano Hok)
    as (Hw & Hh & Ecrop & Epano).
  fold cnv in Hw, Hh.
  set (blend := blended_canvas_of cv dst_img src_img H) in *.
  destruct (blendCanvas_wf_rgb cv
              (place_fixed dst_img cnv)
              (warpPerspective cv src_img
                 (gemm (translation (t_x cnv) (t_y cnv)) H)
                 (width_pano cnv) (height_pano cnv))
              (height_pano cnv) (width_pano cnv) Hh Hw) as [Hwf Hrgb].
  change (blendCanvas cv _ _ (height_pano cnv) (width_pano cnv))
    with blend in Hwf, Hrgb.
  destruct (blended_canvas_of_size cv dst_img src_img H) as [Ec Er].
  fold blend in Ec, Er. fold cnv in Ec, Er.
  pose proof (cropPanorama_le blend (rows dst_img) (corners_src_of cv src_img H))
    as [Hc Hr].
  rewrite Ec in Hc. rewrite Er in Hr.
  destruct (cropPanorama_clone blend (rows dst_img)
              (corners_src_of cv src_img H) Ecrop) as (Hpw & Hph & Eclone).
  assert (Hcols : 0 < cols (cropPanorama blend (rows dst_img)
                                         (corners_src_of cv src_img H))).
  { rewrite Eclone. cbn [roi_clone cols rect_width]. exact Hpw. }
  assert (Hrows : 0 < rows (cropPanorama blend (rows dst_img)
                                         (corners_src_of cv src_img H))).
  { rewrite Eclone. cbn [roi_clone rows rect_height]. exact Hph. }
  rewrite Epano.
  split; [exact (cropPanorama_wf _ _ _ Hwf)|].
  split; [exact (cropPanorama_pixels _ _ _ _ Hrgb)|].
  split; split; assumption.
Qed.

(** ** The panorama of a pair *)

(** X30: whatever the runtime answers, a pair that resolves with a panorama
    that is not deleted was given a homography, and its panorama is a
    well-formed 8-bit colour image with at least one pixel that is no
    larger than the canvas. *)
Theorem stitched_panorama_is_rgb_image
    (cv : CvLib) (dst_img src_img : Mat) (imageNum : Z) (pano : Mat) :
  snd (stitchTwoImages cv dst_img src_img imageNum) = Ok (live pano) ->
  exists H,
    fst (homography_of cv dst_img src_img) = Some H
    /\ Mat_wf pano
    /\ Forall (Forall rgb_pixel) (data pano)
    /\ 0 < cols pano <= width_pano (canvas_of cv dst_img src_img H)
    /\ 0 < rows pano <= height_pano (canvas_of cv dst_img src_img H).
Proof.
  intros Hok.
  destruct (length (keypoints_of cv dst_img) <? 4)%nat eqn:Ed.
  { unfold stitchTwoImages in Hok. rewrite Ed in Hok. discriminate Hok. }
  destruct (length (keypoints_of cv src_img) <? 4)%nat eqn:Es.
  { unfold stitchTwoImages in Hok. rewrite Ed, Es in Hok. discriminate Hok. }
  apply Nat.ltb_ge in Ed, Es.
  rewrite (stitchTwoImages_enough_features cv dst_img src_img imageNum Ed Es)
    in Hok.
  destruct (length (good_matches_of (matches_of cv dst_img src_img)) <? 4)%nat;
    [discriminate Hok|].
  destruct (fst (homography_of cv dst_img src_img)) as [H|];
    [|discriminate Hok].
  exists H. split; [reflexivity|].
  exact (stitch_from_homography_rgb cv dst_img src_img imageNum H pano Hok).
Qed.

Lemma stitched_panorama_is_rgb_image_witness :
  exists pano,
    snd (stitchTwoImages
           (Examples.cv_of Examples.four_matches Examples.H_collapse)
           (Examples.grey 200) (Examples.grey 100) 1) = Ok (live pano)
    /\ Mat_wf pano.
Proof.
  destruct (snd (stitchTwoImages
                   (Examples.cv_of Examples.four_matches Examples.H_collapse)
                   (Examples.grey 200) (Examples.grey 100) 1))
    as [[pano |] | e] eqn:E.
  - exists pano. split; [reflexivity|].
    destruct (stitched_panorama_is_rgb_image
                (Examples.cv_of Examples.four_matches Examples.H_collapse)
                (Examples.grey 200) (Examples.grey 100) 1 pano E)
      as (H & _ & Hwf & _).
    exact Hwf.
  - vm_compute in E. discriminate E.
  - vm_compute in E. discriminate E.
Defined.

(** Witnesses on the example tour. *)
Lemma findNode_finds_the_id_witness :
  findNode TourExamples.hall (node_id TourExamples.pond) = None.
Proof.
  apply (findNode_finds_the_id TourExamples.hall (node_id TourExamples.pond)).
  cbn. intros [H | [H | [H | [H | []]]]]; discriminate H.
Defined.

Lemma navigate_shows_target_or_stays_witness :
  handleNavigate TourExamples.viewing_garden (node_id TourExamples.pond)
  = TourExamples.viewing_garden.
Proof.
  destruct (navigate_shows_target_or_stays
              TourExamples.viewing_garden (node_id TourExamples.pond))
    as (_ & _ & Hstay).
  apply (Hstay TourExamples.hall).
  - reflexivity.
  - cbn. intros [H | [H | [H | [H | []]]]]; discriminate H.
Defined.

Lemma findParent_is_a_parent_witness :
  In TourExamples.garden (nodes TourExamples.hall)
  /\ exists c, In c (node_children TourExamples.garden)
               /\ node_id c = node_id TourExamples.shed.
Proof.
  apply (findParent_is_a_parent TourExamples.hall
                                (node_id TourExamples.shed)).
  reflexivity.
Defined.
